(** * get_bucket_list.py: S3 bucket report

    A shallow embedding of [get_bucket_list.py] and the properties of its
    report.  The script lists the buckets of an account, asks three more
    questions per bucket (owner, region, analytics), and writes the answers
    to [output.csv].

    The cloud provider is a value of type [boto3]: a set of canned
    responses, each either a Python value or a raised exception.  The
    program itself runs in a small state-and-exception monad [M] whose
    state holds the standard output, the log of API requests and the file
    system. *)

From Stdlib Require Import String Ascii List Arith NArith Lia Bool.
From stdpp Require Import base option list gmap strings.

Local Open Scope string_scope.
Local Open Scope list_scope.

(** ** Python values *)

Module Py.

(** The values that travel through the script: [None], booleans, strings
    and lists of these. *)
#[warnings="-register-all"] Inductive pyobj : Type :=
| PNone
| PBool (b : bool)
| PStr (s : string)
| PList (l : list pyobj).

(** Python's truth value of an object. *)
Definition truthy (o : pyobj) : bool :=
  match o with
  | PNone => false
  | PBool b => b
  | PStr s => negb (String.eqb s EmptyString)
  | PList l => negb (Nat.eqb (length l) 0)
  end.

Definition squote : ascii := "'"%char.
Definition dquote : ascii := "034"%char.
Definition backslash : ascii := "\"%char.
Definition TAB : ascii := "009"%char.
Definition LF : ascii := "010"%char.
Definition CR : ascii := "013"%char.

Definition str1 (c : ascii) : string := String c EmptyString.

Fixpoint contains (c : ascii) (s : string) : bool :=
  match s with
  | EmptyString => false
  | String d s' => Ascii.eqb c d || contains c s'
  end.

(** [sep.join(l)] *)
Fixpoint join (sep : string) (l : list string) : string :=
  match l with
  | [] => EmptyString
  | [x] => x
  | x :: l' => x +:+ sep +:+ join sep l'
  end.

Definition hex_digit (n : nat) : ascii :=
  nth n (list_ascii_of_string "0123456789abcdef") "0"%char.

(** One character of [repr(s)], given the enclosing quote.  Characters
    above 127 are kept as they are. *)
Definition repr_char (quote c : ascii) : string :=
  if Ascii.eqb c quote || Ascii.eqb c backslash then String backslash (str1 c)
  else if Ascii.eqb c TAB then "\t"
  else if Ascii.eqb c LF then "\n"
  else if Ascii.eqb c CR then "\r"
  else if Nat.ltb (nat_of_ascii c) 32 || Nat.eqb (nat_of_ascii c) 127 then
    "\x" +:+ str1 (hex_digit (nat_of_ascii c / 16))
         +:+ str1 (hex_digit (nat_of_ascii c mod 16))
  else str1 c.

Fixpoint repr_chars (quote : ascii) (s : string) : string :=
  match s with
  | EmptyString => EmptyString
  | String c s' => repr_char quote c +:+ repr_chars quote s'
  end.

(** [repr] of a string: single quotes, unless the string holds a single
    quote and no double quote. *)
Definition repr_str (s : string) : string :=
  let quote := if contains squote s && negb (contains dquote s)
               then dquote else squote in
  str1 quote +:+ repr_chars quote s +:+ str1 quote.

Fixpoint repr (o : pyobj) : string :=
  match o with
  | PNone => "None"
  | PBool true => "True"
  | PBool false => "False"
  | PStr s => repr_str s
  | PList l => "[" +:+ join ", " (List.map repr l) +:+ "]"
  end.

(** [str(o)] *)
Definition str (o : pyobj) : string :=
  match o with
  | PStr s => s
  | _ => repr o
  end.

(** Exceptions.  [ClientError] is botocore's error for a failed API
    request and carries [str(err)]; [BotoCoreError] stands for botocore's
    other errors, which are not subclasses of [ClientError]. *)
Inductive exn : Type :=
| ClientError (msg : string)
| BotoCoreError (msg : string)
| KeyError (key : string)
| AttributeError (attr : string)
| SystemExit (code : nat).

Inductive outcome (A : Type) : Type :=
| Ok (a : A)
| Raise (e : exn).
Arguments Ok {A} a.
Arguments Raise {A} e.

(** [d[key]] on a dict *)
Definition getitem (d : gmap string pyobj) (key : string) : outcome pyobj :=
  match d !! key with
  | Some v => Ok v
  | None => Raise (KeyError key)
  end.

(** [o.attr] on an [argparse.Namespace] *)
Definition getattr (o : gmap string pyobj) (attr : string) : outcome pyobj :=
  match o !! attr with
  | Some v => Ok v
  | None => Raise (AttributeError attr)
  end.

End Py.
Export Py.

(** ** The mocked provider *)

(** The keyword arguments that [boto3.client] and [boto3.resource]
    receive. *)
Record session : Type := Session {
  region_name : pyobj;
  aws_access_key_id : pyobj;
  aws_secret_access_key : pyobj;
  aws_session_token : pyobj
}.

(** A client object: the response to each request the script sends.
    [list_account_aliases_pages] is what the paginator of
    [list_account_aliases] yields, page by page. *)
Record client : Type := Client {
  get_bucket_location : string -> outcome (gmap string pyobj);
  list_bucket_analytics_configurations : string -> outcome (gmap string pyobj);
  list_account_aliases_pages : list (outcome (gmap string pyobj))
}.

(** A bucket resource: its name and the [owner] attribute of its ACL,
    which is loaded by a request of its own. *)
Record Bucket : Type := MkBucket {
  name : string;
  Acl_owner : outcome (gmap string pyobj)
}.

(** The service resource: [buckets.all()] is the bucket listing. *)
Record resource : Type := Resource {
  buckets_all : outcome (list Bucket)
}.

Record boto3 : Type := Boto3 {
  boto3_client : string -> session -> outcome client;
  boto3_resource : string -> session -> outcome resource
}.

(** The API requests the script can send. *)
Inductive api_call : Type :=
| ListBuckets
| GetBucketAcl (bucket : string)
| ListAccountAliases
| GetBucketLocation (bucket : string)
| ListBucketAnalyticsConfigurations (bucket : string).

(** ** The monad of the script *)

Record world : Type := World {
  stdout : list string;
  calls : list api_call;
  files : gmap string string
}.

Definition M (A : Type) : Type := world -> outcome A * world.

Definition ret {A} (a : A) : M A := fun w => (Ok a, w).

Definition raise {A} (e : exn) : M A := fun w => (Raise e, w).

Definition lift {A} (o : outcome A) : M A := fun w => (o, w).

Definition bind {A B} (m : M A) (k : A -> M B) : M B :=
  fun w =>
    match m w with
    | (Ok a, w') => k a w'
    | (Raise e, w') => (Raise e, w')
    end.

Notation "x <- m ;; k" := (bind m (fun x => k))
  (at level 100, m at next level, right associativity).
Notation "m ;;; k" := (bind m (fun _ => k))
  (at level 100, right associativity).

(** [try: body except ClientError as err: handler] *)
Definition try_except_ClientError {A} (body : M A) (handler : string -> M A) : M A :=
  fun w =>
    match body w with
    | (Raise (ClientError err), w') => handler err w'
    | r => r
    end.

Definition print (s : string) : M unit :=
  fun w => (Ok tt, World (stdout w ++ [s]) (calls w) (files w)).

(** Send a request: log it and take the mocked response. *)
Definition request {A} (c : api_call) (response : outcome A) : M A :=
  fun w => (response, World (stdout w) (calls w ++ [c]) (files w)).

(** [open(path, 'w')] truncates the file.  A file holds the text that
    was written to it, before any newline translation of the platform. *)
Definition open_w (path : string) : M unit :=
  fun w => (Ok tt, World (stdout w) (calls w) (<[path := EmptyString]> (files w))).

Definition file_write (path : string) (s : string) : M unit :=
  fun w => (Ok tt, World (stdout w) (calls w)
                     (<[path := default EmptyString (files w !! path) +:+ s]> (files w))).

(** ** The command line *)

Module Argparse.

(** One [parser.add_argument(...)] call. *)
Record argument : Type := Argument {
  option_strings : list string;
  dest : string;
  help : string;
  required : bool
}.

(** The four [add_argument] calls of the script, in order. *)
Definition parser_arguments : list argument :=
  [ Argument ["-r"; "--aws_region"] "aws_region" "AWS region name" true;
    Argument ["-a"; "--aws_access_key"] "aws_access_key" "AWS access key id" true;
    Argument ["-s"; "--aws_secret_key"] "aws_secret_key" "AWS secret key" true;
    Argument ["-t"; "--aws_security_token"] "aws_security_token" "AWS security token" false ].

(** The option that [ArgumentParser()] adds by itself. *)
Definition help_strings : list string := ["-h"; "--help"].

Definition mem (s : string) (l : list string) : bool :=
  existsb (String.eqb s) l.

(** Every destination starts at its default, [None]. *)
Definition defaults : gmap string pyobj :=
  foldr (fun a ns => <[dest a := PNone]> ns) ∅ parser_arguments.

(** What follows is [ArgumentParser.parse_args] of the standard library
    (CPython 3.11) for this parser: no positional argument, the help
    option, and four options that store one string.  A command line is a
    list of strings, each the UTF-8 bytes of one argument.  What the
    parser prints (usage, help, error message) is left out; its exit
    status is kept. *)

(** An action of the parser: store the value of a declared option, or
    print the help. *)
Inductive action : Type :=
| Store (a : argument)
| Help.

(** [parser._option_string_actions], in insertion order. *)
Definition option_string_actions : list (string * action) :=
  List.map (fun s => (s, Help)) help_strings ++
  flat_map (fun a => List.map (fun s => (s, Store a)) (option_strings a))
           parser_arguments.

Definition lookup_action (s : string) : option action :=
  match List.find (fun entry => String.eqb (fst entry) s) option_string_actions with
  | Some entry => Some (snd entry)
  | None => None
  end.

(** [s.startswith(p)] *)
Fixpoint startswith (p s : string) : bool :=
  match p, s with
  | EmptyString, _ => true
  | String a p', String b s' => Ascii.eqb a b && startswith p' s'
  | String _ _, EmptyString => false
  end.

(** [s.split('=', 1)], when there is an ['='] in [s]. *)
Fixpoint split_eq (s : string) : option (string * string) :=
  match s with
  | EmptyString => None
  | String c s' =>
      if Ascii.eqb c "="%char then Some (EmptyString, s')
      else match split_eq s' with
           | Some (before, after) => Some (String c before, after)
           | None => None
           end
  end.

(** The code points of Unicode 14.0 in category Nd, which [\d] matches,
    as inclusive ranges. *)
Definition decimal_ranges : list (N * N) :=
  [ (48, 57); (1632, 1641); (1776, 1785); (1984, 1993);
    (2406, 2415); (2534, 2543); (2662, 2671); (2790, 2799);
    (2918, 2927); (3046, 3055); (3174, 3183); (3302, 3311);
    (3430, 3439); (3558, 3567); (3664, 3673); (3792, 3801);
    (3872, 3881); (4160, 4169); (4240, 4249); (6112, 6121);
    (6160, 6169); (6470, 6479); (6608, 6617); (6784, 6793);
    (6800, 6809); (6992, 7001); (7088, 7097); (7232, 7241);
    (7248, 7257); (42528, 42537); (43216, 43225); (43264, 43273);
    (43472, 43481); (43504, 43513); (43600, 43609); (44016, 44025);
    (65296, 65305); (66720, 66729); (68912, 68921); (69734, 69743);
    (69872, 69881); (69942, 69951); (70096, 70105); (70384, 70393);
    (70736, 70745); (70864, 70873); (71248, 71257); (71360, 71369);
    (71472, 71481); (71904, 71913); (72016, 72025); (72784, 72793);
    (73040, 73049); (73120, 73129); (92768, 92777); (92864, 92873);
    (93008, 93017); (120782, 120831); (123200, 123209); (123632, 123641);
    (125264, 125273); (130032, 130041) ]%N.

Definition is_decimal (cp : N) : bool :=
  existsb (fun range => N.leb (fst range) cp && N.leb cp (snd range)) decimal_ranges.

(** The payload of a continuation byte of UTF-8. *)
Definition continuation (c : ascii) : option N :=
  let n := N_of_ascii c in
  if N.leb 128 n && N.ltb n 192 then Some (n - 128)%N else None.

(** The first character of a text and the rest, when the text starts
    with a well-formed UTF-8 encoding.  Bytes that do not are no
    character that matters here: Python reads them as lone surrogates. *)
Definition decode (s : string) : option (N * string) :=
  match s with
  | EmptyString => None
  | String b0 s1 =>
      let n0 := N_of_ascii b0 in
      if N.ltb n0 128 then Some (n0, s1)
      else if N.leb 192 n0 && N.ltb n0 224 then
        match s1 with
        | String b1 s2 =>
            match continuation b1 with
            | Some n1 =>
                let cp := ((n0 - 192) * 64 + n1)%N in
                if N.leb 128 cp then Some (cp, s2) else None
            | None => None
            end
        | EmptyString => None
        end
      else if N.leb 224 n0 && N.ltb n0 240 then
        match s1 with
        | String b1 (String b2 s3) =>
            match continuation b1, continuation b2 with
            | Some n1, Some n2 =>
                let cp := ((n0 - 224) * 4096 + n1 * 64 + n2)%N in
                if N.leb 2048 cp && negb (N.leb 55296 cp && N.ltb cp 57344)
                then Some (cp, s3) else None
            | _, _ => None
            end
        | _ => None
        end
      else if N.leb 240 n0 && N.ltb n0 248 then
        match s1 with
        | String b1 (String b2 (String b3 s4)) =>
            match continuation b1, continuation b2, continuation b3 with
            | Some n1, Some n2, Some n3 =>
                let cp := ((n0 - 240) * 262144 + n1 * 4096 + n2 * 64 + n3)%N in
                if N.leb 65536 cp && N.leb cp 1114111 then Some (cp, s4) else None
            | _, _, _ => None
            end
        | _ => None
        end
      else None
  end.

(** The longest run of decimal digits at the start of a text: how many
    there are, and the rest. *)
Fixpoint digits (fuel : nat) (s : string) : nat * string :=
  match fuel with
  | 0 => (0, s)
  | S fuel' =>
      match decode s with
      | Some (cp, rest) =>
          if is_decimal cp
          then let '(n, r) := digits fuel' rest in (S n, r)
          else (0, s)
      | None => (0, s)
      end
  end.

(** Where [$] matches: at the end, or before a newline that ends the
    text. *)
Definition at_end (s : string) : bool :=
  String.eqb s EmptyString || String.eqb s (str1 LF).

(** [parser._negative_number_matcher.match(s)], the pattern being
    [^-\d+$|^-\d*\.\d+$]. *)
Definition negative_number (s : string) : bool :=
  match s with
  | String "-" t =>
      let '(n, r) := digits (String.length t) t in
      (negb (Nat.eqb n 0) && at_end r) ||
      match r with
      | String "." r' =>
          let '(m, r2) := digits (String.length r') r' in
          negb (Nat.eqb m 0) && at_end r2
      | _ => false
      end
  | _ => false
  end.

(** [parser._get_option_tuples(option_string)]: the options that the
    string may abbreviate.  A string with two dashes is a prefix of a
    long option, split at its ['='] if it has one; a string with one dash
    is a short option with its argument attached, or a prefix. *)
Definition get_option_tuples (option_string : string)
    : list (action * string * option string) :=
  match option_string with
  | String c0 (String c1 short_explicit_arg) =>
      if Ascii.eqb c1 "-"%char then
        let '(option_prefix, explicit_arg) :=
          match split_eq option_string with
          | Some (before, after) => (before, Some after)
          | None => (option_string, None)
          end in
        flat_map (fun entry =>
                    if startswith option_prefix (fst entry)
                    then [(snd entry, fst entry, explicit_arg)] else [])
                 option_string_actions
      else
        let short_option_prefix := String c0 (String c1 EmptyString) in
        flat_map (fun entry =>
                    if String.eqb (fst entry) short_option_prefix
                    then [(snd entry, fst entry, Some short_explicit_arg)]
                    else if startswith option_string (fst entry)
                    then [(snd entry, fst entry, None)] else [])
                 option_string_actions
  | _ => []
  end.

(** What [parser._parse_optional(arg_string)] answers: [None] for a
    positional argument, a tuple (action, option string, explicit
    argument) for an option, the action being [None] for an option the
    parser does not know, or an error for an ambiguous abbreviation. *)
Inductive optional : Type :=
| Positional
| Optional (a : option action) (option_string : string) (explicit_arg : option string)
| Ambiguous.

Definition parse_optional (arg_string : string) : optional :=
  match arg_string with
  | EmptyString => Positional
  | String c0 rest =>
      if negb (Ascii.eqb c0 "-"%char) then Positional
      else
        match lookup_action arg_string with
        | Some a => Optional (Some a) arg_string None
        | None =>
            match rest with
            | EmptyString => Positional
            | String _ _ =>
                match (match split_eq arg_string with
                       | Some (option_string, explicit_arg) =>
                           match lookup_action option_string with
                           | Some a => Some (Optional (Some a) option_string (Some explicit_arg))
                           | None => None
                           end
                       | None => None
                       end) with
                | Some answer => answer
                | None =>
                    match get_option_tuples arg_string with
                    | _ :: _ :: _ => Ambiguous
                    | [(a, option_string, explicit_arg)] =>
                        Optional (Some a) option_string explicit_arg
                    | [] =>
                        if negative_number arg_string then Positional
                        else if contains " "%char arg_string then Positional
                        else Optional None arg_string None
                    end
                end
            end
        end
  end.

(** One entry of the pattern of the command line: an argument, an
    option with the answer of [parse_optional], or the separator. *)
Inductive token : Type :=
| A (arg_string : string)
| O (a : option action) (option_string : string) (explicit_arg : option string)
| Dash.

(** The first loop of [_parse_known_args]: every argument after the
    first [--] is an argument, the others are classified one by one; an
    ambiguous abbreviation is an error. *)
Fixpoint classify (arg_strings : list string) : outcome (list token) :=
  match arg_strings with
  | [] => Ok []
  | arg_string :: rest =>
      if String.eqb arg_string "--" then Ok (Dash :: List.map A rest)
      else
        match parse_optional arg_string with
        | Ambiguous => Raise (SystemExit 2)
        | Positional =>
            match classify rest with
            | Ok tokens => Ok (A arg_string :: tokens)
            | Raise e => Raise e
            end
        | Optional a option_string explicit_arg =>
            match classify rest with
            | Ok tokens => Ok (O a option_string explicit_arg :: tokens)
            | Raise e => Raise e
            end
        end
  end.

(** [parser._get_values(action, [arg_string])] for an option that takes
    one argument: a first [--] is stripped, and with nothing left the
    value is the empty list. *)
Definition get_values (arg_string : string) : pyobj :=
  if String.eqb arg_string "--" then PList [] else PStr arg_string.

(** The loop of [consume_optional] once the help option has taken
    nothing of its attached text [explicit_arg]: the text is read as
    further short options.  The loop ends in an exit: status 2 if a
    character is no option or the last option finds no argument, status 0
    otherwise, since the help action runs first. *)
Fixpoint combined (explicit_arg : string) (next_is_argument : bool) : nat :=
  match explicit_arg with
  | EmptyString => 2
  | String c new_explicit_arg =>
      match lookup_action (String "-" (String c EmptyString)) with
      | None => 2
      | Some Help =>
          match new_explicit_arg with
          | EmptyString => 0
          | String _ _ => combined new_explicit_arg next_is_argument
          end
      | Some (Store _) =>
          match new_explicit_arg with
          | EmptyString => if next_is_argument then 0 else 2
          | String _ _ => 0
          end
      end
  end.

(** The state of the parse: the namespace so far, the destinations of
    the actions seen and whether an argument was left over. *)
Record scan : Type := Scan {
  namespace : gmap string pyobj;
  seen : list string;
  extras : bool
}.

Definition store (a : argument) (value : pyobj) (s : scan) : scan :=
  Scan (<[dest a := value]> (namespace s)) (dest a :: seen s) (extras s).

Definition left_over (s : scan) : scan :=
  Scan (namespace s) (seen s) true.

(** The main loop of [_parse_known_args] with [consume_optional].  There
    is no positional argument to match, so an argument that no option
    takes, the separator and an unknown option are left over.  An option
    with an attached argument stores it; without one it takes the next
    entry if that is an argument and is an error otherwise.  The help
    option exits. *)
Fixpoint consume (tokens : list token) (s : scan) : outcome scan :=
  match tokens with
  | [] => Ok s
  | A _ :: rest => consume rest (left_over s)
  | Dash :: rest => consume rest (left_over s)
  | O None _ _ :: rest => consume rest (left_over s)
  | O (Some Help) option_string None :: _ => Raise (SystemExit 0)
  | O (Some Help) option_string (Some explicit_arg) :: rest =>
      match option_string, explicit_arg with
      | String _ (String c1 _), String _ _ =>
          if Ascii.eqb c1 "-"%char then Raise (SystemExit 2)
          else Raise (SystemExit
                        (combined explicit_arg
                           match rest with A _ :: _ => true | _ => false end))
      | _, _ => Raise (SystemExit 2)
      end
  | O (Some (Store a)) _ (Some explicit_arg) :: rest =>
      consume rest (store a (get_values explicit_arg) s)
  | O (Some (Store a)) _ None :: rest =>
      match rest with
      | A arg_string :: rest' => consume rest' (store a (get_values arg_string) s)
      | _ => Raise (SystemExit 2)
      end
  end.

(** [parser.parse_args()]: after the loop, a required option that was
    not seen or an argument left over ends the program with status 2. *)
Definition parse_args (argv : list string) : outcome (gmap string pyobj) :=
  match classify argv with
  | Raise e => Raise e
  | Ok tokens =>
      match consume tokens (Scan defaults [] false) with
      | Raise e => Raise e
      | Ok s =>
          if forallb (fun a => implb (required a) (mem (dest a) (seen s)))
                     parser_arguments
          then if extras s then Raise (SystemExit 2) else Ok (namespace s)
          else Raise (SystemExit 2)
      end
  end.

End Argparse.
Export Argparse.

(** ** The CSV writer *)

Module Csv.

(** The dialect of [csv.writer(csvfile, delimiter=',', quotechar='|',
    quoting=csv.QUOTE_MINIMAL)]; the line terminator is the default one. *)
Definition delimiter : ascii := ","%char.
Definition quotechar : ascii := "|"%char.
Definition lineterminator : string := String CR (String LF EmptyString).

(** The characters that make a field need quotes. *)
Definition special (c : ascii) : bool :=
  Ascii.eqb c delimiter || Ascii.eqb c quotechar || contains c lineterminator.

Fixpoint has_special (s : string) : bool :=
  match s with
  | EmptyString => false
  | String c s' => special c || has_special s'
  end.

(** Inside quotes the quote character is doubled. *)
Fixpoint doubled (s : string) : string :=
  match s with
  | EmptyString => EmptyString
  | String c s' =>
      if Ascii.eqb c quotechar then String c (String c (doubled s'))
      else String c (doubled s')
  end.

(** The text of a field: [None] is the empty text, anything else its
    [str]. *)
Definition field_text (o : pyobj) : string :=
  match o with
  | PNone => EmptyString
  | _ => str o
  end.

Definition csv_field (o : pyobj) : string :=
  let s := field_text o in
  if has_special s then str1 quotechar +:+ doubled s +:+ str1 quotechar
  else s.

(** The record that [writer.writerow(row)] writes.  A row made of one
    empty field is written as a pair of quotes. *)
Definition writerow (row : list pyobj) : string :=
  let record := join (str1 delimiter) (List.map csv_field row) in
  match row, record with
  | [_], EmptyString => str1 quotechar +:+ str1 quotechar +:+ lineterminator
  | _, _ => record +:+ lineterminator
  end.

End Csv.
Export Csv.

(** ** The script *)

Section Script.

(** The provider answering the run, and the parsed command line (the
    script's global [opt]). *)
Variable api : boto3.
Variable opt : gmap string pyobj.

(** The keyword arguments built from [opt], evaluated left to right.
    The session token is [opt.aws_security_token if 'aws_security_token'
    in opt else None]. *)
Definition credentials : outcome session :=
  match getattr opt "aws_region" with
  | Raise e => Raise e
  | Ok region =>
    match getattr opt "aws_access_key" with
    | Raise e => Raise e
    | Ok access =>
      match getattr opt "aws_secret_key" with
      | Raise e => Raise e
      | Ok secret =>
        match (if bool_decide (is_Some (opt !! "aws_security_token"))
               then getattr opt "aws_security_token" else Ok PNone) with
        | Raise e => Raise e
        | Ok token => Ok (Session region access secret token)
        end
      end
    end
  end.

Definition credentials_message (err : string) : string :=
  "One of provided parameter for credentials is not valid: " +:+ str1 LF +:+ err.

(** AWS client interface.  On a [ClientError] the message is printed and
    the function falls off its end, returning [None]. *)
Definition get_client (service : string) : M (option client) :=
  try_except_ClientError
    (kwargs <- lift credentials ;;
     c <- lift (boto3_client api service kwargs) ;;
     ret (Some c))
    (fun err => print (credentials_message err) ;;; ret None).

Definition get_iam_client : M (option client) := get_client "iam".

(** Attribute access on what [get_client] returned: [None] has no
    methods. *)
Definition method (attr : string) (c : option client) : M client :=
  match c with
  | Some c => ret c
  | None => raise (AttributeError attr)
  end.

(** The loop [for response in paginator.paginate():
    aliases.append(response['AccountAliases'])]; each page is one
    request. *)
Fixpoint paginate_aliases (pages : list (outcome (gmap string pyobj)))
    (aliases : list pyobj) : M (list pyobj) :=
  match pages with
  | [] => ret aliases
  | page :: rest =>
      response <- request ListAccountAliases page ;;
      a <- lift (getitem response "AccountAliases") ;;
      paginate_aliases rest (aliases ++ [a])
  end.

(** The [try] block of [get_acc_aliases]. *)
Definition acc_aliases_try : M string :=
  iam <- get_iam_client ;;
  paginator <- method "get_paginator" iam ;;
  aliases <- paginate_aliases (list_account_aliases_pages paginator) [] ;;
  ret (join " " (List.map str aliases)).

Definition get_acc_aliases : M string :=
  try_except_ClientError acc_aliases_try (fun _ => ret "Not available").

Definition get_s3_client : M (option client) := get_client "s3".

Definition get_s3_bucket_region (bucket : string) : M pyobj :=
  c <- get_s3_client ;;
  c <- method "get_bucket_location" c ;;
  response <- request (GetBucketLocation bucket) (get_bucket_location c bucket) ;;
  lift (getitem response "LocationConstraint").

(** [True] when the key is in the response; otherwise the function falls
    off its end and returns [None]. *)
Definition is_analytics_enabled (bucket : string) : M pyobj :=
  c <- get_s3_client ;;
  c <- method "list_bucket_analytics_configurations" c ;;
  response <- request (ListBucketAnalyticsConfigurations bucket)
                      (list_bucket_analytics_configurations c bucket) ;;
  if bool_decide (is_Some (response !! "AnalyticsConfigurationList"))
  then ret (PBool true) else ret PNone.

(** The loop [for bucket in buckets: buckets_list.append([...])]; the
    five elements of the row are evaluated left to right. *)
Fixpoint collect (buckets : list Bucket) (buckets_list : list (list pyobj))
    : M (list (list pyobj)) :=
  match buckets with
  | [] => ret buckets_list
  | bucket :: rest =>
      owner <- request (GetBucketAcl (name bucket)) (Acl_owner bucket) ;;
      id <- lift (getitem owner "ID") ;;
      aliases <- get_acc_aliases ;;
      region <- get_s3_bucket_region (name bucket) ;;
      enabled <- is_analytics_enabled (name bucket) ;;
      collect rest
        (buckets_list ++
           [[id; PStr aliases; PStr (name bucket); region;
             PStr (if truthy enabled then "Y" else "N")]])
  end.

(** The [try] block of [get_formated_buckets_list]. *)
Definition formated_buckets_try : M (option (list (list pyobj))) :=
  kwargs <- lift credentials ;;
  s3 <- lift (boto3_resource api "s3" kwargs) ;;
  buckets <- request ListBuckets (buckets_all s3) ;;
  buckets_list <- collect buckets [] ;;
  ret (Some buckets_list).

(** Returns the list of rows; after a [ClientError] the message is
    printed and the function falls off its end, returning [None]. *)
Definition get_formated_buckets_list : M (option (list (list pyobj))) :=
  try_except_ClientError formated_buckets_try
    (fun err => print (credentials_message err) ;;; ret None).

Definition header : list pyobj :=
  [PStr "Account ID"; PStr "Account Aliases"; PStr "S3 Bucket Name";
   PStr "S3 Bucket Region"; PStr "Analytics"].

(** The loop [for bucket_data in bucket_list: writer.writerow(bucket_data)] *)
Fixpoint write_rows (path : string) (rows : list (list pyobj)) : M unit :=
  match rows with
  | [] => ret tt
  | bucket_data :: rest =>
      file_write path (writerow bucket_data) ;;; write_rows path rest
  end.

(** The truth value of what [get_formated_buckets_list] returned: [None]
    and the empty list are false. *)
Definition list_truthy (bucket_list : option (list (list pyobj))) : bool :=
  match bucket_list with
  | Some (_ :: _) => true
  | _ => false
  end.

Definition main : M unit :=
  bucket_list <- get_formated_buckets_list ;;
  if list_truthy bucket_list then
    open_w "output.csv" ;;;
    file_write "output.csv" (writerow header) ;;;
    write_rows "output.csv" (default [] bucket_list)
  else ret tt.

End Script.

(** The [__main__] block: parse the command line, then run [main]. *)
Definition script (api : boto3) (argv : list string) : M unit :=
  opt <- lift (parse_args argv) ;;
  main api opt.

(** A world before the run: nothing printed, nothing requested. *)
Definition fresh (fs : gmap string string) : world := World [] [] fs.

(** ** Notions used in the statements *)

(** What a computation may do to the world: [sends m n] bounds the
    requests it logs, [keeps_files m] says it writes no file. *)
Definition sends {A} (m : M A) (n : nat) : Prop :=
  forall w r w', m w = (r, w') ->
    exists cs, calls w' = calls w ++ cs /\ length cs <= n.

Definition keeps_files {A} (m : M A) : Prop :=
  forall w r w', m w = (r, w') -> files w' = files w.

Section Responses.

Variable api : boto3.
Variable opt : gmap string pyobj.

(** The value of [boto3.client(service, ...)]. *)
Definition constructed (service : string) : outcome client :=
  match credentials opt with
  | Ok kwargs => boto3_client api service kwargs
  | Raise e => Raise e
  end.

(** The number of pages the alias paginator yields. *)
Definition alias_pages : nat :=
  match constructed "iam" with
  | Ok c => length (list_account_aliases_pages c)
  | Raise _ => 0
  end.

(** The bucket listing of the run. *)
Definition listing : outcome (list Bucket) :=
  match credentials opt with
  | Ok kwargs =>
      match boto3_resource api "s3" kwargs with
      | Ok s3 => buckets_all s3
      | Raise e => Raise e
      end
  | Raise e => Raise e
  end.

Definition listed : nat :=
  match listing with
  | Ok buckets => length buckets
  | Raise _ => 0
  end.

(** The row of a bucket whose requests were all answered: the five
    values, each tied to the response it comes from. *)
Definition row_of (bucket : Bucket) (row : list pyobj) : Prop :=
  exists c owner id aliases w1 w2 location region analytics,
    constructed "s3" = Ok c /\
    Acl_owner bucket = Ok owner /\
    owner !! "ID" = Some id /\
    get_acc_aliases api opt w1 = (Ok aliases, w2) /\
    get_bucket_location c (name bucket) = Ok location /\
    location !! "LocationConstraint" = Some region /\
    list_bucket_analytics_configurations c (name bucket) = Ok analytics /\
    row = [id; PStr aliases; PStr (name bucket); region;
           PStr (if bool_decide (is_Some (analytics !! "AnalyticsConfigurationList"))
                 then "Y" else "N")].

End Responses.

(** The records of a list of rows, one after the other. *)
Definition records (rows : list (list pyobj)) : string :=
  foldr (fun row text => writerow row +:+ text) EmptyString rows.

(** A value that an option has stored: a string, or the empty list that
    the explicit argument [--] leaves. *)
Definition assigned (v : pyobj) : Prop :=
  (exists s, v = PStr s) \/ v = PList [].

(** What holds of the parse at every step: a destination that was seen
    holds an assigned value, and any destination holds its default or an
    assigned value. *)
Definition scanned (s : scan) : Prop :=
  (forall d, d ∈ seen s -> exists v, namespace s !! d = Some v /\ assigned v) /\
  (forall d, namespace s !! d = defaults !! d \/
             exists v, namespace s !! d = Some v /\ assigned v /\
                       is_Some (defaults !! d)).

(** A command line on which every entry is a declared option, with its
    argument attached or in the next entry. *)
Inductive declared_only : list token -> Prop :=
| declared_nil : declared_only []
| declared_attached a option_string explicit_arg rest :
    a ∈ parser_arguments ->
    declared_only rest ->
    declared_only (O (Some (Store a)) option_string (Some explicit_arg) :: rest)
| declared_separate a option_string arg_string rest :
    a ∈ parser_arguments ->
    declared_only rest ->
    declared_only (O (Some (Store a)) option_string None :: A arg_string :: rest).

(** The options of a command line all come from the parser's table. *)
Definition known (tokens : list token) : Prop :=
  Forall (fun tok =>
            match tok with
            | O (Some (Store a)) _ _ => a ∈ parser_arguments
            | _ => True
            end) tokens.

(** The declared arguments, by name. *)
Definition region_argument : argument :=
  Argument ["-r"; "--aws_region"] "aws_region" "AWS region name" true.
Definition access_argument : argument :=
  Argument ["-a"; "--aws_access_key"] "aws_access_key" "AWS access key id" true.
Definition secret_argument : argument :=
  Argument ["-s"; "--aws_secret_key"] "aws_secret_key" "AWS secret key" true.
Definition token_argument : argument :=
  Argument ["-t"; "--aws_security_token"] "aws_security_token" "AWS security token" false.

(** Two patterns that differ in the spelling of their storing options,
    and in what follows the separator. *)
Inductive alike : list token -> list token -> Prop :=
| alike_nil : alike [] []
| alike_same tok l l' : alike l l' -> alike (tok :: l) (tok :: l')
| alike_store a option_string option_string' explicit_arg l l' :
    alike l l' ->
    alike (O (Some (Store a)) option_string explicit_arg :: l)
          (O (Some (Store a)) option_string' explicit_arg :: l')
| alike_rest xs ys : alike (Dash :: List.map A xs) (Dash :: List.map A ys).

(** An argument that an option can take from the next entry: it is not
    the separator and the parser reads it as a positional argument. *)
Definition value_like (v : string) : bool :=
  negb (String.eqb v "--") &&
  match parse_optional v with
  | Positional => true
  | _ => false
  end.

(** ** Sample response sets *)

Module Samples.

Definition opt : gmap string pyobj :=
  <["aws_region" := PStr "eu-central-1"]>
    (<["aws_access_key" := PStr "AKIAEXAMPLE"]>
       (<["aws_secret_key" := PStr "secret"]> defaults)).

Definition page : gmap string pyobj :=
  {[ "AccountAliases" := PList [PStr "acme"] ]}.

(** [logs] is in the default region and has one analytics
    configuration; [media] is in Frankfurt and has none. *)
Definition s3_client : client :=
  Client
    (fun bucket =>
       Ok {[ "LocationConstraint" :=
               if String.eqb bucket "logs" then PNone else PStr "eu-central-1" ]})
    (fun bucket =>
       if String.eqb bucket "logs"
       then Ok {[ "AnalyticsConfigurationList" := PList [PStr "daily"] ]}
       else Ok ∅)
    [Ok page].

Definition bucket (n : string) : Bucket :=
  MkBucket n (Ok {[ "ID" := PStr "0123abcd" ]}).

Definition provider (buckets : outcome (list Bucket)) (c : client) : boto3 :=
  Boto3 (fun _ _ => Ok c) (fun _ _ => Ok (Resource buckets)).

Definition api : boto3 := provider (Ok [bucket "logs"; bucket "media"]) s3_client.

Definition rows : list (list pyobj) :=
  [ [PStr "0123abcd"; PStr "['acme']"; PStr "logs"; PNone; PStr "Y"];
    [PStr "0123abcd"; PStr "['acme']"; PStr "media"; PStr "eu-central-1"; PStr "N"] ].





(** The bucket listing is refused. *)
Definition refused_api : boto3 :=
  provider (Raise (ClientError "InvalidAccessKeyId")) s3_client.


(** The location request is refused. *)
Definition location_refused_api : boto3 :=
  provider (Ok [bucket "logs"])
    (Client (fun _ => Raise (ClientError "AccessDenied"))
            (list_bucket_analytics_configurations s3_client)
            [Ok page]).

(** No client can be built, and there is a bucket to ask about. *)
Definition clientless_api : boto3 :=
  Boto3 (fun _ _ => Raise (ClientError "InvalidClientTokenId"))
        (fun _ _ => Ok (Resource (Ok [bucket "logs"]))).

(** An account without buckets. *)
Definition empty_api : boto3 := provider (Ok []) s3_client.

(** The world after the collection over [api]: four requests per
    bucket after the listing. *)
Definition collected : world :=
  World []
    [ListBuckets;
     GetBucketAcl "logs"; ListAccountAliases; GetBucketLocation "logs";
     ListBucketAnalyticsConfigurations "logs";
     GetBucketAcl "media"; ListAccountAliases; GetBucketLocation "media";
     ListBucketAnalyticsConfigurations "media"]
    ∅.

End Samples.

(** ** Notions used in the further properties *)

(** A page of the alias paginator that is answered and holds the key. *)
Definition answered (page : outcome (gmap string pyobj)) (v : pyobj) : Prop :=
  exists d, page = Ok d /\ d !! "AccountAliases" = Some v.

(** The number of pages that the loop of [get_acc_aliases] requests: it
    stops after the first page that raises or lacks the key. *)
Fixpoint consumed (pages : list (outcome (gmap string pyobj))) : nat :=
  match pages with
  | [] => 0
  | Ok d :: rest =>
      match d !! "AccountAliases" with
      | Some _ => S (consumed rest)
      | None => 1
      end
  | Raise _ :: _ => 1
  end.

(** The world after [s] was printed. *)
Definition printed (s : string) (w : world) : world :=
  World (stdout w ++ [s]) (calls w) (files w).

(** The world after the requests [cs] were sent. *)
Definition requested (cs : list api_call) (w : world) : world :=
  World (stdout w) (calls w ++ cs) (files w).

Section Requests.

Variable api : boto3.
Variable opt : gmap string pyobj.

(** The alias requests of one call of [get_acc_aliases]. *)
Definition alias_requests : list api_call :=
  match constructed api opt "iam" with
  | Ok c => replicate (consumed (list_account_aliases_pages c)) ListAccountAliases
  | Raise _ => []
  end.

(** The requests sent for one bucket, in the order of the row. *)
Definition bucket_requests (bucket : Bucket) : list api_call :=
  GetBucketAcl (name bucket) :: alias_requests ++
    [GetBucketLocation (name bucket);
     ListBucketAnalyticsConfigurations (name bucket)].

(** A bucket for which one of the three per-bucket answers is missing:
    the ACL or its [ID], the location or its [LocationConstraint], or the
    analytics response. *)
Definition unanswered (bucket : Bucket) : Prop :=
  (forall owner, Acl_owner bucket = Ok owner -> owner !! "ID" = None) \/
  (forall c, constructed api opt "s3" = Ok c ->
     (forall location, get_bucket_location c (name bucket) = Ok location ->
        location !! "LocationConstraint" = None) \/
     (forall analytics,
        list_bucket_analytics_configurations c (name bucket) <> Ok analytics)).

End Requests.

(** The first spelling of the option that [t] spells out in full; any
    other argument is left as it is. *)
Definition short_form (t : string) : string :=
  match lookup_action t with
  | Some (Store a) => hd t (option_strings a)
  | _ => t
  end.

(** ** Further response sets *)

Module Cases.

Import Samples.

Definition second_page : gmap string pyobj :=
  {[ "AccountAliases" := PList [PStr "acme-eu"; PStr "ops"] ]}.

(** Two pages of aliases. *)
Definition paged_client : client :=
  Client (get_bucket_location s3_client)
         (list_bucket_analytics_configurations s3_client)
         [Ok page; Ok second_page].

Definition paged_api : boto3 := provider (Ok [bucket "logs"]) paged_client.

(** The second page is refused; a third one would follow. *)
Definition late_refusal_client : client :=
  Client (get_bucket_location s3_client)
         (list_bucket_analytics_configurations s3_client)
         [Ok page; Raise (ClientError "Throttling"); Ok second_page].

Definition late_refusal_api : boto3 :=
  provider (Ok [bucket "logs"]) late_refusal_client.

(** The second page lacks the key. *)
Definition keyless_client : client :=
  Client (get_bucket_location s3_client)
         (list_bucket_analytics_configurations s3_client)
         [Ok page; Ok ∅; Ok second_page].

Definition keyless_api : boto3 := provider (Ok [bucket "logs"]) keyless_client.

(** The location response of [media] lacks its key. *)
Definition no_constraint_client : client :=
  Client (fun bucket =>
            if String.eqb bucket "media" then Ok ∅
            else get_bucket_location s3_client bucket)
         (list_bucket_analytics_configurations s3_client)
         [Ok page].

Definition no_constraint_api : boto3 :=
  provider (Ok [bucket "logs"; bucket "media"]) no_constraint_client.

(** The ACL of the second bucket is refused; a third bucket follows. *)
Definition locked : Bucket := MkBucket "media" (Raise (ClientError "AccessDenied")).

Definition acl_refused_api : boto3 :=
  provider (Ok ([bucket "logs"] ++ locked :: [bucket "backup"])) s3_client.

(** A file system that already holds a report and another file. *)
Definition disk : gmap string string :=
  <["output.csv" := "stale"]> (<["notes.txt" := "keep"]> ∅).

End Cases.

(** ** Reasoning about runs *)

Section Monad.

Context {A B : Type}.

Lemma ret_run (a : A) w r w' : ret a w = (r, w') -> r = Ok a /\ w' = w.
Proof. unfold ret. intros H. by simplify_eq. Qed.

Lemma lift_run (o : outcome A) w r w' : lift o w = (r, w') -> r = o /\ w' = w.
Proof. unfold lift. intros H. by simplify_eq. Qed.

Lemma request_run c (o : outcome A) w r w' :
  request c o w = (r, w') ->
  r = o /\ w' = World (stdout w) (calls w ++ [c]) (files w).
Proof. unfold request. intros H. by simplify_eq. Qed.

Lemma bind_run (m : M A) (k : A -> M B) w r w' :
  bind m k w = (r, w') ->
  (exists a w1, m w = (Ok a, w1) /\ k a w1 = (r, w')) \/
  (exists e, m w = (Raise e, w') /\ r = Raise e).
Proof.
  unfold bind. destruct (m w) as [[a|e] w1]; intros H.
  - left. eauto.
  - right. exists e. by simplify_eq.
Qed.

Lemma bind_Ok (m : M A) (k : A -> M B) w b w' :
  bind m k w = (Ok b, w') ->
  exists a w1, m w = (Ok a, w1) /\ k a w1 = (Ok b, w').
Proof.
  intros H. apply bind_run in H as [H | (e & _ & H)]; [done | discriminate].
Qed.

Lemma try_except_run (body : M A) (handler : string -> M A) w r w' :
  try_except_ClientError body handler w = (r, w') ->
  (body w = (r, w') /\ forall err, r <> Raise (ClientError err)) \/
  (exists err w1, body w = (Raise (ClientError err), w1) /\ handler err w1 = (r, w')).
Proof.
  unfold try_except_ClientError.
  destruct (body w) as [[a|[]] w1]; intros H; simplify_eq; eauto.
Qed.

End Monad.

Section Effects.

Context {A B : Type}.

Lemma sends_weaken (m : M A) n n' : sends m n -> n <= n' -> sends m n'.
Proof.
  intros H Hle w r w' Hrun. destruct (H _ _ _ Hrun) as (cs & ? & ?).
  exists cs. split; [done | lia].
Qed.

Lemma sends_ret (a : A) : sends (ret a) 0.
Proof.
  intros w r w' [_ ->]%ret_run. exists []. by rewrite app_nil_r.
Qed.

Lemma sends_raise e : sends (@raise A e) 0.
Proof.
  intros w r w' H. unfold raise in H. simplify_eq.
  exists []. by rewrite app_nil_r.
Qed.

Lemma sends_lift (o : outcome A) : sends (lift o) 0.
Proof.
  intros w r w' [_ ->]%lift_run. exists []. by rewrite app_nil_r.
Qed.

Lemma sends_request c (o : outcome A) : sends (request c o) 1.
Proof.
  intros w r w' [_ ->]%request_run. by exists [c].
Qed.

Lemma sends_bind (m : M A) (k : A -> M B) n p :
  sends m n ->
  (forall a w w1, m w = (Ok a, w1) -> sends (k a) p) ->
  sends (bind m k) (n + p).
Proof.
  intros Hm Hk w r w' Hrun.
  apply bind_run in Hrun as [(a & w1 & H1 & H2) | (e & H1 & _)].
  - destruct (Hm _ _ _ H1) as (cs1 & E1 & L1).
    destruct (Hk _ _ _ H1 _ _ _ H2) as (cs2 & E2 & L2).
    exists (cs1 ++ cs2). rewrite E2, E1, app_assoc, length_app.
    split; [done | lia].
  - destruct (Hm _ _ _ H1) as (cs1 & E1 & L1).
    exists cs1. split; [done | lia].
Qed.

Lemma sends_try (body : M A) handler n :
  sends body n -> (forall err, sends (handler err) 0) ->
  sends (try_except_ClientError body handler) n.
Proof.
  intros Hb Hh w r w' Hrun.
  apply try_except_run in Hrun as [[H _] | (err & w1 & H1 & H2)].
  - eauto.
  - destruct (Hb _ _ _ H1) as (cs1 & E1 & L1).
    destruct (Hh _ _ _ _ H2) as (cs2 & E2 & L2).
    destruct cs2; [| simpl in L2; lia].
    exists cs1. by rewrite E2, app_nil_r.
Qed.

Lemma keeps_ret (a : A) : keeps_files (ret a).
Proof. by intros w r w' [_ ->]%ret_run. Qed.

Lemma keeps_raise e : keeps_files (@raise A e).
Proof. intros w r w' H. unfold raise in H. by simplify_eq. Qed.

Lemma keeps_lift (o : outcome A) : keeps_files (lift o).
Proof. by intros w r w' [_ ->]%lift_run. Qed.

Lemma keeps_request c (o : outcome A) : keeps_files (request c o).
Proof. by intros w r w' [_ ->]%request_run. Qed.

Lemma keeps_bind (m : M A) (k : A -> M B) :
  keeps_files m -> (forall a, keeps_files (k a)) -> keeps_files (bind m k).
Proof.
  intros Hm Hk w r w' Hrun.
  apply bind_run in Hrun as [(a & w1 & H1 & H2) | (e & H1 & _)].
  - rewrite (Hk _ _ _ _ H2). eauto.
  - eauto.
Qed.

Lemma keeps_try (body : M A) handler :
  keeps_files body -> (forall err, keeps_files (handler err)) ->
  keeps_files (try_except_ClientError body handler).
Proof.
  intros Hb Hh w r w' Hrun.
  apply try_except_run in Hrun as [[H _] | (err & w1 & H1 & H2)].
  - eauto.
  - rewrite (Hh _ _ _ _ H2). eauto.
Qed.

End Effects.

Lemma sends_print s : sends (print s) 0.
Proof.
  intros w r w' H. unfold print in H. simplify_eq.
  exists []. by rewrite app_nil_r.
Qed.

Lemma keeps_print s : keeps_files (print s).
Proof. intros w r w' H. unfold print in H. by simplify_eq. Qed.

(** ** The helpers, one by one *)

Section Helpers.

Variable api : boto3.
Variable opt : gmap string pyobj.

Lemma get_client_run service w r w' :
  get_client api opt service w = (r, w') ->
  (exists c, constructed api opt service = Ok c /\ r = Ok (Some c) /\ w' = w) \/
  (exists err, constructed api opt service = Raise (ClientError err) /\ r = Ok None /\
     w' = World (stdout w ++ [credentials_message err]) (calls w) (files w)) \/
  (exists e, constructed api opt service = Raise e /\ r = Raise e /\ w' = w /\
     forall err, e <> ClientError err).
Proof.
  unfold get_client, try_except_ClientError, bind, lift, ret, print, constructed.
  destruct (credentials opt) as [kw|e] eqn:Hc.
  - destruct (boto3_client api service kw) as [c|e] eqn:Hb.
    + intros H. simplify_eq. left. eauto.
    + destruct e; intros H; simplify_eq;
        try (right; right; eexists; split; [done | done]).
      right; left. eauto.
  - unfold credentials, getattr in Hc.
    repeat case_match; simplify_eq; intros H; simplify_eq;
      right; right; eexists; split; done.
Qed.

Lemma get_client_Some service w c w' :
  get_client api opt service w = (Ok (Some c), w') ->
  constructed api opt service = Ok c /\ w' = w.
Proof.
  intros H. apply get_client_run in H as [(c' & ? & ? & ?) | [(e & ? & ? & ?) | (e & ? & ? & ?)]];
    by simplify_eq.
Qed.

Lemma sends_get_client service : sends (get_client api opt service) 0.
Proof.
  intros w r w' H. exists []. rewrite app_nil_r. split; [| done].
  apply get_client_run in H as [(c' & ? & ? & ->) | [(e & ? & ? & ->) | (e & ? & ? & -> & ?)]];
    done.
Qed.

Lemma keeps_get_client service : keeps_files (get_client api opt service).
Proof.
  intros w r w' H.
  apply get_client_run in H as [(c' & ? & ? & ->) | [(e & ? & ? & ->) | (e & ? & ? & -> & ?)]];
    done.
Qed.

Lemma method_run attr c w r w' :
  method attr c w = (r, w') ->
  w' = w /\ (r = Raise (AttributeError attr) /\ c = None \/ exists c', c = Some c' /\ r = Ok c').
Proof.
  destruct c as [c|]; simpl; unfold ret, raise; intros H; simplify_eq; eauto.
Qed.

Lemma sends_method attr c : sends (method attr c) 0.
Proof. destruct c; [apply sends_ret | apply sends_raise]. Qed.

Lemma keeps_method attr c : keeps_files (method attr c).
Proof. destruct c; [apply keeps_ret | apply keeps_raise]. Qed.

Lemma sends_paginate_aliases pages aliases :
  sends (paginate_aliases pages aliases) (length pages).
Proof.
  revert aliases. induction pages as [|page rest IH]; intros aliases; simpl.
  - apply sends_ret.
  - change (S (length rest)) with (1 + (0 + length rest)).
    apply sends_bind; [apply sends_request |]. intros response _ _ _.
    apply sends_bind; [apply sends_lift |]. intros a _ _ _. apply IH.
Qed.

Lemma keeps_paginate_aliases pages aliases :
  keeps_files (paginate_aliases pages aliases).
Proof.
  revert aliases. induction pages as [|page rest IH]; intros aliases; simpl.
  - apply keeps_ret.
  - apply keeps_bind; [apply keeps_request |]. intros response.
    apply keeps_bind; [apply keeps_lift |]. intros a. apply IH.
Qed.

Lemma sends_get_acc_aliases : sends (get_acc_aliases api opt) (alias_pages api opt).
Proof.
  unfold get_acc_aliases, acc_aliases_try. apply sends_try; [| intros; apply sends_ret].
  replace (alias_pages api opt) with (0 + (0 + ((alias_pages api opt) + 0))) by lia.
  apply sends_bind; [apply sends_get_client |]. intros iam w w1 Hiam.
  apply sends_bind; [apply sends_method |]. intros c w2 w3 Hc.
  apply method_run in Hc as [_ [[? _] | (c' & -> & ?)]]; [done |]. simplify_eq.
  apply get_client_Some in Hiam as [Hiam _].
  apply sends_bind; [| intros; apply sends_ret].
  unfold alias_pages. rewrite Hiam. apply sends_paginate_aliases.
Qed.

Lemma keeps_get_acc_aliases : keeps_files (get_acc_aliases api opt).
Proof.
  unfold get_acc_aliases, acc_aliases_try. apply keeps_try; [| intros; apply keeps_ret].
  apply keeps_bind; [apply keeps_get_client |]. intros iam.
  apply keeps_bind; [apply keeps_method |]. intros c.
  apply keeps_bind; [apply keeps_paginate_aliases |]. intros; apply keeps_ret.
Qed.

Lemma sends_get_s3_bucket_region bucket :
  sends (get_s3_bucket_region api opt bucket) 1.
Proof.
  unfold get_s3_bucket_region. change 1 with (0 + (0 + (1 + 0))).
  apply sends_bind; [apply sends_get_client |]. intros c _ _ _.
  apply sends_bind; [apply sends_method |]. intros c' _ _ _.
  apply sends_bind; [apply sends_request |]. intros; apply sends_lift.
Qed.

Lemma keeps_get_s3_bucket_region bucket :
  keeps_files (get_s3_bucket_region api opt bucket).
Proof.
  unfold get_s3_bucket_region.
  apply keeps_bind; [apply keeps_get_client |]. intros c.
  apply keeps_bind; [apply keeps_method |]. intros c'.
  apply keeps_bind; [apply keeps_request |]. intros; apply keeps_lift.
Qed.

Lemma sends_is_analytics_enabled bucket :
  sends (is_analytics_enabled api opt bucket) 1.
Proof.
  unfold is_analytics_enabled. change 1 with (0 + (0 + (1 + 0))).
  apply sends_bind; [apply sends_get_client |]. intros c _ _ _.
  apply sends_bind; [apply sends_method |]. intros c' _ _ _.
  apply sends_bind; [apply sends_request |]. intros.
  case_bool_decide; apply sends_ret.
Qed.

Lemma keeps_is_analytics_enabled bucket :
  keeps_files (is_analytics_enabled api opt bucket).
Proof.
  unfold is_analytics_enabled.
  apply keeps_bind; [apply keeps_get_client |]. intros c.
  apply keeps_bind; [apply keeps_method |]. intros c'.
  apply keeps_bind; [apply keeps_request |]. intros.
  case_bool_decide; apply keeps_ret.
Qed.

Lemma sends_collect buckets buckets_list :
  sends (collect api opt buckets buckets_list) (length buckets * ((alias_pages api opt) + 3)).
Proof.
  revert buckets_list. induction buckets as [|bucket rest IH]; intros acc; simpl.
  - apply sends_ret.
  - eapply sends_weaken.
    + apply sends_bind; [apply sends_request |]. intros owner _ _ _.
      apply sends_bind; [apply sends_lift |]. intros id _ _ _.
      apply sends_bind; [apply sends_get_acc_aliases |]. intros aliases _ _ _.
      apply sends_bind; [apply sends_get_s3_bucket_region |]. intros region _ _ _.
      apply sends_bind; [apply sends_is_analytics_enabled |]. intros enabled _ _ _.
      apply IH.
    + lia.
Qed.

Lemma keeps_collect buckets buckets_list :
  keeps_files (collect api opt buckets buckets_list).
Proof.
  revert buckets_list. induction buckets as [|bucket rest IH]; intros acc; simpl.
  - apply keeps_ret.
  - apply keeps_bind; [apply keeps_request |]. intros owner.
    apply keeps_bind; [apply keeps_lift |]. intros id.
    apply keeps_bind; [apply keeps_get_acc_aliases |]. intros aliases.
    apply keeps_bind; [apply keeps_get_s3_bucket_region |]. intros region.
    apply keeps_bind; [apply keeps_is_analytics_enabled |]. intros enabled.
    apply IH.
Qed.

Lemma sends_get_formated_buckets_list :
  sends (get_formated_buckets_list api opt) (1 + (listed api opt) * ((alias_pages api opt) + 3)).
Proof.
  unfold get_formated_buckets_list, formated_buckets_try.
  apply sends_try; [| intros; apply (sends_bind _ _ 0 0); [apply sends_print | intros; apply sends_ret]].
  change (1 + (listed api opt) * ((alias_pages api opt) + 3))
    with (0 + (0 + (1 + (listed api opt) * ((alias_pages api opt) + 3)))).
  apply sends_bind; [apply sends_lift |]. intros kw w w1 [Hkw _]%lift_run.
  apply sends_bind; [apply sends_lift |]. intros s3 w2 w3 [Hs3 _]%lift_run.
  apply sends_bind; [apply sends_request |]. intros bs w4 w5 [Hbs _]%request_run.
  eapply sends_weaken.
  - apply sends_bind; [apply sends_collect |]. intros; apply sends_ret.
  - unfold listed, listing. rewrite <- Hkw, <- Hs3, <- Hbs. lia.
Qed.

Lemma keeps_get_formated_buckets_list :
  keeps_files (get_formated_buckets_list api opt).
Proof.
  unfold get_formated_buckets_list, formated_buckets_try.
  apply keeps_try;
    [| intros; apply keeps_bind; [apply keeps_print | intros; apply keeps_ret]].
  apply keeps_bind; [apply keeps_lift |]. intros kw.
  apply keeps_bind; [apply keeps_lift |]. intros s3.
  apply keeps_bind; [apply keeps_request |]. intros bs.
  apply keeps_bind; [apply keeps_collect |]. intros; apply keeps_ret.
Qed.

End Helpers.

(** ** Text *)

Lemma append_nil_r (s : string) : s +:+ EmptyString = s.
Proof.
  induction s as [|c s IH]; [done |].
  change (String c (s +:+ EmptyString) = String c s). by rewrite IH.
Qed.

Lemma append_assoc (s t u : string) : (s +:+ t) +:+ u = s +:+ (t +:+ u).
Proof.
  induction s as [|c s IH]; [done |].
  change (String c ((s +:+ t) +:+ u) = String c (s +:+ (t +:+ u))). by rewrite IH.
Qed.

(** ** Successful runs *)

Section Success.

Variable api : boto3.
Variable opt : gmap string pyobj.

Lemma getitem_Ok (d : gmap string pyobj) key v :
  getitem d key = Ok v -> d !! key = Some v.
Proof. unfold getitem. destruct (d !! key); intros H; by simplify_eq. Qed.

Lemma method_Ok attr c w c' w' :
  method attr c w = (Ok c', w') -> c = Some c' /\ w' = w.
Proof.
  intros H. apply method_run in H as [-> [[? _] | (c2 & -> & ?)]]; by simplify_eq.
Qed.

Lemma get_s3_bucket_region_Ok bucket w region w' :
  get_s3_bucket_region api opt bucket w = (Ok region, w') ->
  exists c location,
    constructed api opt "s3" = Ok c /\
    get_bucket_location c bucket = Ok location /\
    location !! "LocationConstraint" = Some region.
Proof.
  unfold get_s3_bucket_region, get_s3_client. intros H.
  apply bind_Ok in H as (c0 & w1 & Hc0 & H).
  apply bind_Ok in H as (c & w2 & Hc & H).
  apply bind_Ok in H as (location & w3 & Hloc & H).
  apply method_Ok in Hc as [-> ->].
  apply get_client_Some in Hc0 as [Hc0 ->].
  apply request_run in Hloc as [Hloc _].
  apply lift_run in H as [H _].
  exists c, location. eauto using getitem_Ok.
Qed.

Lemma is_analytics_enabled_Ok bucket w enabled w' :
  is_analytics_enabled api opt bucket w = (Ok enabled, w') ->
  exists c analytics,
    constructed api opt "s3" = Ok c /\
    list_bucket_analytics_configurations c bucket = Ok analytics /\
    enabled = if bool_decide (is_Some (analytics !! "AnalyticsConfigurationList"))
              then PBool true else PNone.
Proof.
  unfold is_analytics_enabled, get_s3_client. intros H.
  apply bind_Ok in H as (c0 & w1 & Hc0 & H).
  apply bind_Ok in H as (c & w2 & Hc & H).
  apply bind_Ok in H as (analytics & w3 & Han & H).
  apply method_Ok in Hc as [-> ->].
  apply get_client_Some in Hc0 as [Hc0 ->].
  apply request_run in Han as [Han _].
  exists c, analytics. repeat split; [done.. |].
  case_bool_decide; apply ret_run in H as [H _]; by simplify_eq.
Qed.

Lemma collect_Ok buckets buckets_list w rows w' :
  collect api opt buckets buckets_list w = (Ok rows, w') ->
  exists new, rows = buckets_list ++ new /\ Forall2 (row_of api opt) buckets new.
Proof.
  revert buckets_list w. induction buckets as [|bucket rest IH]; intros acc w; simpl.
  - intros [H _]%ret_run. simplify_eq. exists []. by rewrite app_nil_r.
  - intros H.
    apply bind_Ok in H as (owner & w1 & Howner & H).
    apply bind_Ok in H as (id & w2 & Hid & H).
    apply bind_Ok in H as (aliases & w3 & Haliases & H).
    apply bind_Ok in H as (region & w4 & Hregion & H).
    apply bind_Ok in H as (enabled & w5 & Henabled & H).
    apply request_run in Howner as [Howner%eq_sym _].
    apply lift_run in Hid as [Hid%eq_sym%getitem_Ok ->].
    apply get_s3_bucket_region_Ok in Hregion as (c & location & Hc & Hloc & Hkey).
    apply is_analytics_enabled_Ok in Henabled as (c' & analytics & Hc' & Han & ->).
    rewrite Hc in Hc'. simplify_eq.
    apply IH in H as (new & -> & Hnew).
    eexists (_ :: new). rewrite <- app_assoc. split; [done |].
    constructor; [| done].
    exists c', owner, id, aliases. eexists _, _, location, region, analytics.
    repeat split; try eassumption.
    by case_bool_decide.
Qed.

Lemma get_formated_buckets_list_Some w rows w' :
  get_formated_buckets_list api opt w = (Ok (Some rows), w') ->
  exists buckets, listing api opt = Ok buckets /\ Forall2 (row_of api opt) buckets rows.
Proof.
  unfold get_formated_buckets_list, formated_buckets_try. intros H.
  apply try_except_run in H as [[H _] | (err & w1 & _ & H)].
  - apply bind_Ok in H as (kw & w1 & [Hkw _]%lift_run & H).
    apply bind_Ok in H as (s3 & w2 & [Hs3 _]%lift_run & H).
    apply bind_Ok in H as (buckets & w3 & [Hbs _]%request_run & H).
    apply bind_Ok in H as (rows' & w4 & Hrows & [H _]%ret_run).
    simplify_eq.
    apply collect_Ok in Hrows as (new & -> & Hnew).
    exists buckets. split; [| done].
    unfold listing. by rewrite <- Hkw, <- Hs3.
  - apply bind_Ok in H as (? & w2 & _ & [H _]%ret_run). discriminate.
Qed.

(** A [ClientError] never leaves [get_formated_buckets_list]; when the
    body raises one, the message is printed and [None] is returned. *)
Lemma get_formated_buckets_list_None w w' :
  get_formated_buckets_list api opt w = (Ok None, w') ->
  exists err w1,
    stdout w' = stdout w1 ++ [credentials_message err] /\
    calls w' = calls w1 /\ files w' = files w1.
Proof.
  unfold get_formated_buckets_list, formated_buckets_try. intros H.
  apply try_except_run in H as [[H _] | (err & w1 & _ & H)].
  - apply bind_Ok in H as (kw & w1 & _ & H).
    apply bind_Ok in H as (s3 & w2 & _ & H).
    apply bind_Ok in H as (buckets & w3 & _ & H).
    apply bind_Ok in H as (rows' & w4 & _ & [H _]%ret_run). discriminate.
  - exists err, w1. unfold bind, print, ret in H. by simplify_eq.
Qed.

(** ** Writing the file *)

Lemma write_rows_run path rows w text :
  files w !! path = Some text ->
  write_rows path rows w =
    (Ok tt, World (stdout w) (calls w) (<[path := text +:+ records rows]> (files w))).
Proof.
  revert w text. induction rows as [|row rest IH]; intros w text Hfile; simpl.
  - unfold ret. rewrite append_nil_r, insert_id by done. by destruct w.
  - unfold bind, file_write. rewrite Hfile. simpl.
    erewrite IH by (simpl; apply lookup_insert_eq). simpl.
    by rewrite insert_insert_eq, append_assoc.
Qed.

(** [main], given what [get_formated_buckets_list] did. *)
Lemma main_run w r w1 :
  get_formated_buckets_list api opt w = (r, w1) ->
  main api opt w =
    match r with
    | Ok (Some (row :: rows)) =>
        (Ok tt, World (stdout w1) (calls w1)
                  (<["output.csv" := writerow header +:+ records (row :: rows)]> (files w1)))
    | Ok _ => (Ok tt, w1)
    | Raise e => (Raise e, w1)
    end.
Proof.
  intros H. unfold main, bind at 1. rewrite H.
  destruct r as [[[|row rows]|]|e]; try done.
  cbn [list_truthy default]. unfold bind, open_w, file_write. cbn [files stdout calls].
  rewrite lookup_insert_eq. cbn [default].
  erewrite write_rows_run by (cbn [files]; apply lookup_insert_eq).
  cbn [files stdout calls]. by rewrite !insert_insert_eq.
Qed.

End Success.

(** ** The rows of a report *)

Section Rows.

Variable api : boto3.
Variable opt : gmap string pyobj.

Lemma Forall2_row_lookup (buckets : list Bucket) (rows : list (list pyobj)) i bucket :
  Forall2 (row_of api opt) buckets rows ->
  buckets !! i = Some bucket ->
  exists row, rows !! i = Some row /\ row_of api opt bucket row.
Proof.
  intros H Hi. destruct (Forall2_lookup_l _ _ _ _ _ H Hi) as (row & ? & ?). eauto.
Qed.

(** C1: when the bucket collection succeeds, [main] ends normally and,
    unless the list is empty, [output.csv] holds the header record
    followed by the records of the rows; there is one row per listed
    bucket, in the order of the listing, the bucket-name field of the
    i-th row being the name of the i-th listed bucket. *)
Theorem C1_rows_follow_listing w rows w1 :
  get_formated_buckets_list api opt w = (Ok (Some rows), w1) ->
  exists buckets w2,
    listing api opt = Ok buckets /\
    main api opt w = (Ok tt, w2) /\
    (rows <> [] ->
     files w2 !! "output.csv" = Some (writerow header +:+ records rows)) /\
    length rows = length buckets /\
    forall i bucket, buckets !! i = Some bucket ->
      exists row, rows !! i = Some row /\ row !! 2 = Some (PStr (name bucket)).
Proof.
  intros Hrun.
  destruct (get_formated_buckets_list_Some _ _ _ _ _ Hrun) as (buckets & Hlist & Hrows).
  pose proof (main_run _ _ _ _ _ Hrun) as Hmain.
  exists buckets, (snd (main api opt w)). split; [done |]. split.
  - rewrite Hmain. destruct rows as [|row rows']; reflexivity.
  - split; [| split].
    + intros Hne. rewrite Hmain. destruct rows as [|row rows']; [done |].
      cbn [snd files]. apply lookup_insert_eq.
    + symmetry. by eapply Forall2_length.
    + intros i bucket Hi.
      destruct (Forall2_row_lookup _ _ _ _ Hrows Hi) as (row & Hrow & Hof).
      exists row. split; [done |].
      destruct Hof as (c & owner & id & aliases & wa & wb & location & region
                         & analytics & _ & _ & _ & _ & _ & _ & _ & ->).
      reflexivity.
Qed.

(** C7: every row that a successful bucket collection produces has
    exactly five fields, in this order: the [ID] of the owner in the
    bucket's ACL, the string that [get_acc_aliases] returns, the bucket's
    name, the [LocationConstraint] of the bucket's location response, and
    the analytics flag, which is [Y] or [N]. *)
Theorem C7_five_fields w rows w1 :
  get_formated_buckets_list api opt w = (Ok (Some rows), w1) ->
  exists buckets,
    listing api opt = Ok buckets /\
    Forall2
      (fun bucket row =>
         length row = 5 /\
         exists c owner id aliases wa wb location region flag,
           row = [id; PStr aliases; PStr (name bucket); region; PStr flag] /\
           Acl_owner bucket = Ok owner /\ owner !! "ID" = Some id /\
           get_acc_aliases api opt wa = (Ok aliases, wb) /\
           constructed api opt "s3" = Ok c /\
           get_bucket_location c (name bucket) = Ok location /\
           location !! "LocationConstraint" = Some region /\
           (flag = "Y" \/ flag = "N"))
      buckets rows.
Proof.
  intros Hrun.
  destruct (get_formated_buckets_list_Some _ _ _ _ _ Hrun) as (buckets & Hlist & Hrows).
  exists buckets. split; [done |].
  eapply Forall2_impl; [exact Hrows |].
  intros bucket row (c & owner & id & aliases & wa & wb & location & region
                       & analytics & Hc & Ho & Hid & Hal & Hloc & Hreg & Han & ->).
  split; [done |].
  exists c, owner, id, aliases, wa, wb, location, region. eexists.
  repeat split; try eassumption.
  case_bool_decide; auto.
Qed.

(** C10: in every row of a successful bucket collection the region field
    is the value stored under [LocationConstraint] in the bucket's
    location response, as it is; when that value is [None] the field is
    written as an empty CSV field. *)
Theorem C10_region_is_raw w rows w1 :
  get_formated_buckets_list api opt w = (Ok (Some rows), w1) ->
  exists buckets,
    listing api opt = Ok buckets /\
    forall i bucket, buckets !! i = Some bucket ->
      exists c location region row,
        constructed api opt "s3" = Ok c /\
        get_bucket_location c (name bucket) = Ok location /\
        location !! "LocationConstraint" = Some region /\
        rows !! i = Some row /\
        row !! 3 = Some region /\
        (region = PNone ->
         exists id aliases flag,
           row = [id; aliases; PStr (name bucket); PNone; flag] /\
           csv_field region = EmptyString /\
           writerow row =
             csv_field id +:+ "," +:+ csv_field aliases +:+ "," +:+
             csv_field (PStr (name bucket)) +:+ "," +:+ EmptyString +:+ "," +:+
             csv_field flag +:+ lineterminator).
Proof.
  intros Hrun.
  destruct (get_formated_buckets_list_Some _ _ _ _ _ Hrun) as (buckets & Hlist & Hrows).
  exists buckets. split; [done |]. intros i bucket Hi.
  destruct (Forall2_row_lookup _ _ _ _ Hrows Hi) as (row & Hrow & Hof).
  destruct Hof as (c & owner & id & aliases & wa & wb & location & region
                     & analytics & Hc & _ & _ & _ & Hloc & Hreg & _ & ->).
  exists c, location, region. eexists. repeat split; try eassumption; [done |].
  intros ->. eexists _, _, _. split; [reflexivity |]. split; [reflexivity |].
  unfold writerow. cbn [List.map join].
  rewrite !append_assoc.
  destruct (csv_field id +:+ _) eqn:E; reflexivity.
Qed.


End Rows.

(** ** Errors and the file *)

Section Outcomes.

Variable api : boto3.
Variable opt : gmap string pyobj.

Lemma try_except_never_ClientError {A} (body : M A) handler w r w' err :
  (forall e w1 r1 w2, handler e w1 = (r1, w2) -> r1 <> Raise (ClientError err)) ->
  try_except_ClientError body handler w = (r, w') ->
  r <> Raise (ClientError err).
Proof.
  intros Hh H. apply try_except_run in H as [[_ H] | (e & w1 & _ & H)]; eauto.
Qed.


(** C4: when [get_formated_buckets_list] returns a falsy value, [None]
    or the empty list, [main] ends without touching any file: the file
    system after the run is the one before it. *)
Theorem C4_falsy_list_writes_nothing w bucket_list w1 :
  get_formated_buckets_list api opt w = (Ok bucket_list, w1) ->
  list_truthy bucket_list = false ->
  main api opt w = (Ok tt, w1) /\ files w1 = files w.
Proof.
  intros Hrun Hfalse. split.
  - rewrite (main_run _ _ _ _ _ Hrun).
    by destruct bucket_list as [[|row rows]|].
  - by eapply keeps_get_formated_buckets_list.
Qed.

(** C5: when the bucket list is truthy, so that [main] writes
    [output.csv], the file starts with the header line
    [Account ID,Account Aliases,S3 Bucket Name,S3 Bucket Region,Analytics]
    and its line terminator; the records of the rows come after it. *)
Theorem C5_header_line_first w bucket_list w1 :
  get_formated_buckets_list api opt w = (Ok bucket_list, w1) ->
  list_truthy bucket_list = true ->
  exists rows w2,
    bucket_list = Some rows /\
    main api opt w = (Ok tt, w2) /\
    files w2 !! "output.csv" =
      Some ("Account ID,Account Aliases,S3 Bucket Name,S3 Bucket Region,Analytics"
              +:+ lineterminator +:+ records rows).
Proof.
  intros Hrun Htrue.
  destruct bucket_list as [[|row rows]|]; try discriminate.
  eexists _, _. split; [done |]. split; [exact (main_run _ _ _ _ _ Hrun) |].
  cbn [files]. rewrite lookup_insert_eq. f_equal.
Qed.

(** C6: [main] is total, and on every response set it sends at most
    [1 + n * (p + 3)] requests, where [n] is the number of listed buckets
    and [p] the number of pages of the alias paginator: one listing, and
    per bucket the ACL, the alias pages, the location and the analytics
    configurations. *)
Theorem C6_bounded_requests w :
  exists r w' cs,
    main api opt w = (r, w') /\
    calls w' = calls w ++ cs /\
    length cs <= 1 + listed api opt * (alias_pages api opt + 3).
Proof.
  destruct (get_formated_buckets_list api opt w) as [r1 w1] eqn:Hrun.
  destruct (sends_get_formated_buckets_list _ _ _ _ _ Hrun) as (cs & Hcs & Hlen).
  pose proof (main_run _ _ _ _ _ Hrun) as Hmain.
  destruct r1 as [[[|row rows]|]|e]; eexists _, _, cs; (split; [exact Hmain |]); done.
Qed.

(** C9: when the listing succeeds with no bucket, [main] ends after the
    listing request with nothing printed and no file written, not even
    the header. *)
Theorem C9_no_buckets_no_file w :
  listing api opt = Ok [] ->
  main api opt w = (Ok tt, World (stdout w) (calls w ++ [ListBuckets]) (files w)).
Proof.
  intros Hlist.
  assert (get_formated_buckets_list api opt w =
            (Ok (Some []), World (stdout w) (calls w ++ [ListBuckets]) (files w))) as Hrun.
  { unfold listing in Hlist.
    unfold get_formated_buckets_list, formated_buckets_try, try_except_ClientError,
      bind, lift, request, ret.
    destruct (credentials opt) as [kw|e]; [| discriminate].
    destruct (boto3_resource api "s3" kw) as [s3|e]; [| discriminate].
    by rewrite Hlist. }
  by rewrite (main_run _ _ _ _ _ Hrun).
Qed.

End Outcomes.

(** ** The command line *)

Section CommandLine.

Lemma mem_elem_of (t : string) (l : list string) : mem t l = true <-> t ∈ l.
Proof.
  unfold mem. rewrite existsb_exists, list_elem_of_In. split.
  - intros (x & Hin & Heq). apply String.eqb_eq in Heq. by subst.
  - intros Hin. exists t. split; [done | apply String.eqb_refl].
Qed.

(** Every storing action of the table is one of the declared
    arguments. *)
Lemma table_declared entry a :
  In entry option_string_actions -> snd entry = Store a -> a ∈ parser_arguments.
Proof.
  unfold option_string_actions. cbn.
  intros H Ha.
  repeat (destruct H as [<- | H];
          [cbn in Ha; first [discriminate
                            | injection Ha as <-; apply list_elem_of_In; cbn; tauto] |]).
  destruct H.
Qed.

Lemma lookup_action_Store s a :
  lookup_action s = Some (Store a) -> a ∈ parser_arguments.
Proof.
  unfold lookup_action.
  destruct (List.find _ option_string_actions) as [entry|] eqn:Hfind; [| discriminate].
  intros H. apply find_some in Hfind as [Hin _].
  apply (table_declared entry); [done | congruence].
Qed.

Lemma get_option_tuples_Store s a option_string explicit_arg :
  In (Store a, option_string, explicit_arg) (get_option_tuples s) ->
  a ∈ parser_arguments.
Proof.
  unfold get_option_tuples.
  destruct s as [|c0 [|c1 s']]; [done.. |].
  destruct (Ascii.eqb c1 "-").
  - destruct (match split_eq _ with Some _ => _ | None => _ end) as [prefix e].
    intros (entry & Hin & H)%in_flat_map.
    destruct (startswith prefix (fst entry)); [| done].
    destruct H as [H | []]. apply (table_declared entry); [done | congruence].
  - intros (entry & Hin & H)%in_flat_map.
    destruct (String.eqb (fst entry) _).
    + destruct H as [H | []]. apply (table_declared entry); [done | congruence].
    + destruct (startswith _ (fst entry)); [| done].
      destruct H as [H | []]. apply (table_declared entry); [done | congruence].
Qed.

Lemma parse_optional_Store t a option_string explicit_arg :
  parse_optional t = Optional (Some (Store a)) option_string explicit_arg ->
  a ∈ parser_arguments.
Proof.
  unfold parse_optional.
  destruct t as [|c0 rest]; [discriminate |].
  destruct (negb (Ascii.eqb c0 "-")); [discriminate |].
  destruct (lookup_action (String c0 rest)) as [x|] eqn:Hlook.
  { intros H. simplify_eq. by eapply lookup_action_Store. }
  destruct rest as [|c1 rest']; [discriminate |].
  destruct (split_eq (String c0 (String c1 rest'))) as [[before after]|].
  - destruct (lookup_action before) as [x|] eqn:Hbefore.
    { intros H. simplify_eq. by eapply lookup_action_Store. }
    destruct (get_option_tuples _) as [|[[x os] e] [|? ?]] eqn:Htuples.
    + repeat case_match; discriminate.
    + intros H. simplify_eq.
      eapply get_option_tuples_Store. rewrite Htuples. by left.
    + discriminate.
  - destruct (get_option_tuples _) as [|[[x os] e] [|? ?]] eqn:Htuples.
    + repeat case_match; discriminate.
    + intros H. simplify_eq.
      eapply get_option_tuples_Store. rewrite Htuples. by left.
    + discriminate.
Qed.

Lemma Forall_map_A (P : token -> Prop) (l : list string) :
  (forall v, P (A v)) -> Forall P (List.map A l).
Proof. intros H. induction l; constructor; auto. Qed.

Lemma classify_known argv : forall tokens,
  classify argv = Ok tokens -> known tokens.
Proof.
  unfold known. induction argv as [|t rest IH]; intros tokens H; cbn [classify] in H.
  - simplify_eq. constructor.
  - destruct (String.eqb t "--").
    + simplify_eq. constructor; [done |]. by apply Forall_map_A.
    + destruct (parse_optional t) as [|x os e|] eqn:Ht; [| | discriminate].
      * destruct (classify rest) as [tokens'|]; [| discriminate].
        simplify_eq. constructor; [done | by apply IH].
      * destruct (classify rest) as [tokens'|]; [| discriminate].
        simplify_eq. constructor; [| by apply IH].
        destruct x as [[a|]|]; [| done..]. by eapply parse_optional_Store.
Qed.

(** An option of the pattern is the answer of [parse_optional] on one of
    the arguments. *)
Lemma classify_origin argv : forall tokens x option_string explicit_arg,
  classify argv = Ok tokens ->
  O x option_string explicit_arg ∈ tokens ->
  exists t, t ∈ argv /\ parse_optional t = Optional x option_string explicit_arg.
Proof.
  induction argv as [|t rest IH]; intros tokens x os e H Hin; cbn [classify] in H.
  - simplify_eq. by apply elem_of_nil in Hin.
  - destruct (String.eqb t "--").
    + simplify_eq. apply elem_of_cons in Hin as [? | Hin]; [discriminate |].
      apply list_elem_of_In, in_map_iff in Hin as (v & ? & _). discriminate.
    + destruct (parse_optional t) as [|x' os' e'|] eqn:Ht; [| | discriminate].
      * destruct (classify rest) as [tokens'|]; [| discriminate]. simplify_eq.
        apply elem_of_cons in Hin as [? | Hin]; [discriminate |].
        destruct (IH _ _ _ _ eq_refl Hin) as (t' & ? & ?).
        exists t'. split; [by apply list_elem_of_further | done].
      * destruct (classify rest) as [tokens'|]; [| discriminate]. simplify_eq.
        apply elem_of_cons in Hin as [Heq | Hin].
        -- simplify_eq. exists t. split; [apply list_elem_of_here | done].
        -- destruct (IH _ _ _ _ eq_refl Hin) as (t' & ? & ?).
           exists t'. split; [by apply list_elem_of_further | done].
Qed.

Lemma classify_raises argv e :
  classify argv = Raise e -> e = SystemExit 2.
Proof.
  induction argv as [|t rest IH]; cbn [classify]; [discriminate |].
  destruct (String.eqb t "--"); [discriminate |].
  destruct (parse_optional t); [| | by intros; simplify_eq];
    destruct (classify rest); first [discriminate | intros; simplify_eq; auto].
Qed.

Lemma get_values_assigned v : assigned (get_values v).
Proof.
  unfold get_values, assigned. destruct (String.eqb v "--"); eauto.
Qed.

Lemma scanned_start : scanned (Scan defaults [] false).
Proof.
  split; simpl.
  - intros d Hd. by apply elem_of_nil in Hd.
  - intros d. by left.
Qed.

Lemma dest_has_default a : a ∈ parser_arguments -> is_Some (defaults !! dest a).
Proof.
  unfold parser_arguments. rewrite !elem_of_cons, elem_of_nil.
  intros [-> | [-> | [-> | [-> | []]]]]; by eexists.
Qed.

Lemma scanned_store s a v :
  a ∈ parser_arguments -> assigned v -> scanned s -> scanned (store a v s).
Proof.
  intros Ha Hv [Hseen Hns]. split; simpl.
  - intros d Hd. destruct (decide (d = dest a)) as [-> | Hne].
    + exists v. split; [apply lookup_insert_eq | done].
    + rewrite lookup_insert_ne by done.
      apply elem_of_cons in Hd as [? | Hd]; [done | auto].
  - intros d. destruct (decide (d = dest a)) as [-> | Hne].
    + right. exists v. repeat split; [apply lookup_insert_eq | done |].
      by apply dest_has_default.
    + rewrite lookup_insert_ne by done. apply Hns.
Qed.

Lemma scanned_left_over s : scanned s -> scanned (left_over s).
Proof. by intros [? ?]. Qed.

Lemma consume_scanned n : forall tokens s s',
  length tokens <= n -> known tokens -> scanned s -> consume tokens s = Ok s' ->
  scanned s' /\ (extras s' = false -> extras s = false /\ declared_only tokens).
Proof.
  induction n as [|n IH]; intros tokens s s' Hlen Hknown Hs Hrun.
  - destruct tokens; [| simpl in Hlen; lia]. cbn in Hrun. simplify_eq.
    split; [done |]. intros ?. split; [done | constructor].
  - destruct tokens as [|tok rest];
      [cbn in Hrun; simplify_eq; split; [done |]; intros ?; split; [done | constructor] |].
    simpl in Hlen. apply Forall_cons in Hknown as [Htok Hrest].
    assert (forall s0, scanned s0 -> consume rest (left_over s0) = Ok s' ->
              scanned s' /\ (extras s' = false -> extras s0 = false /\
                             declared_only (tok :: rest))) as Hleft.
    { intros s0 Hs0 H. apply IH in H as [Hs' Hextras];
        [| lia | done | by apply scanned_left_over].
      split; [done |]. intros Hfalse. by destruct (Hextras Hfalse) as [? _]. }
    destruct tok as [v | [[a|]|] os [e|] | ]; cbn [consume] in Hrun;
      try (by apply Hleft).
    + apply IH in Hrun as [Hs' Hextras];
        [| lia | done | by apply scanned_store; [| apply get_values_assigned |]].
      split; [done |]. intros Hfalse. destruct (Hextras Hfalse) as [? ?].
      split; [done |]. by constructor.
    + destruct rest as [|[v| |] rest']; try discriminate.
      simpl in Hlen. apply Forall_cons in Hrest as [_ Hrest'].
      apply IH in Hrun as [Hs' Hextras];
        [| lia | done | by apply scanned_store; [| apply get_values_assigned |]].
      split; [done |]. intros Hfalse. destruct (Hextras Hfalse) as [? ?].
      split; [done |]. by constructor.
    + repeat case_match; discriminate.
Qed.

Lemma value_like_spec v :
  value_like v = true -> String.eqb v "--" = false /\ parse_optional v = Positional.
Proof.
  unfold value_like. intros [Hv Hp]%andb_true_iff.
  split; [by apply negb_true_iff |]. by destruct (parse_optional v).
Qed.

Lemma classify_option t rest x option_string explicit_arg :
  String.eqb t "--" = false ->
  parse_optional t = Optional x option_string explicit_arg ->
  classify (t :: rest) =
    match classify rest with
    | Ok tokens => Ok (O x option_string explicit_arg :: tokens)
    | Raise e => Raise e
    end.
Proof. intros Ht Hp. cbn [classify]. by rewrite Ht, Hp. Qed.

Lemma classify_value v rest :
  value_like v = true ->
  classify (v :: rest) =
    match classify rest with
    | Ok tokens => Ok (A v :: tokens)
    | Raise e => Raise e
    end.
Proof.
  intros [Hv Hp]%value_like_spec. cbn [classify]. by rewrite Hv, Hp.
Qed.

Lemma get_values_value v : value_like v = true -> get_values v = PStr v.
Proof. intros [Hv _]%value_like_spec. unfold get_values. by rewrite Hv. Qed.

Lemma credentials_of (ns : gmap string pyobj) r a s t :
  ns !! "aws_region" = Some r ->
  ns !! "aws_access_key" = Some a ->
  ns !! "aws_secret_key" = Some s ->
  ns !! "aws_security_token" = Some t ->
  credentials ns = Ok (Session r a s t).
Proof.
  intros Hr Ha Hs Ht. unfold credentials, getattr. by rewrite Hr, Ha, Hs, Ht.
Qed.

(** A command line of four options, each with its value in the next
    entry. *)
Lemma parse_args_separate fr fa fs ft r a s t :
  parse_optional fr = Optional (Some (Store region_argument)) fr None ->
  parse_optional fa = Optional (Some (Store access_argument)) fa None ->
  parse_optional fs = Optional (Some (Store secret_argument)) fs None ->
  parse_optional ft = Optional (Some (Store token_argument)) ft None ->
  String.eqb fr "--" = false -> String.eqb fa "--" = false ->
  String.eqb fs "--" = false -> String.eqb ft "--" = false ->
  value_like r = true -> value_like a = true ->
  value_like s = true -> value_like t = true ->
  parse_args [fr; r; fa; a; fs; s] =
    Ok (<["aws_secret_key" := PStr s]>
          (<["aws_access_key" := PStr a]>
             (<["aws_region" := PStr r]> defaults))) /\
  parse_args [fr; r; fa; a; fs; s; ft; t] =
    Ok (<["aws_security_token" := PStr t]>
          (<["aws_secret_key" := PStr s]>
             (<["aws_access_key" := PStr a]>
                (<["aws_region" := PStr r]> defaults)))).
Proof.
  intros Hfr Hfa Hfs Hft Er Ea Es Et Hr Ha Hs Ht.
  unfold parse_args. split.
  - rewrite (classify_option fr _ _ _ _ Er Hfr), (classify_value r _ Hr),
      (classify_option fa _ _ _ _ Ea Hfa), (classify_value a _ Ha),
      (classify_option fs _ _ _ _ Es Hfs), (classify_value s _ Hs).
    cbn [classify consume]. by rewrite !get_values_value.
  - rewrite (classify_option fr _ _ _ _ Er Hfr), (classify_value r _ Hr),
      (classify_option fa _ _ _ _ Ea Hfa), (classify_value a _ Ha),
      (classify_option fs _ _ _ _ Es Hfs), (classify_value s _ Hs),
      (classify_option ft _ _ _ _ Et Hft), (classify_value t _ Ht).
    cbn [classify consume]. by rewrite !get_values_value.
Qed.

(** C8: the script declares exactly four options, for the region, the
    access key, the secret key and the session token, of which the first
    three are required and the last is not.  On a command line that the
    parser accepts, every entry is one of these four options, in any of
    its spellings, with its argument; the three required destinations
    hold an assigned value, the token holds one or stays [None], and the
    namespace has no other attribute.  A command line with the three
    required options and no token is accepted: the token is [None], the
    session is built with it, and [main] runs.  With the token option,
    short or long, the token is the given string; the [--option=value]
    spelling is accepted for any value. *)
Theorem C8_four_options :
  List.map dest parser_arguments =
    ["aws_region"; "aws_access_key"; "aws_secret_key"; "aws_security_token"] /\
  List.map required parser_arguments = [true; true; true; false] /\
  (forall argv ns,
     parse_args argv = Ok ns ->
     (exists r a s,
        ns !! "aws_region" = Some r /\ assigned r /\
        ns !! "aws_access_key" = Some a /\ assigned a /\
        ns !! "aws_secret_key" = Some s /\ assigned s) /\
     (ns !! "aws_security_token" = Some PNone \/
      exists t, ns !! "aws_security_token" = Some t /\ assigned t) /\
     (forall d, is_Some (ns !! d) -> d ∈ List.map dest parser_arguments) /\
     exists tokens, classify argv = Ok tokens /\ declared_only tokens) /\
  (forall api r a s,
     value_like r = true -> value_like a = true -> value_like s = true ->
     exists ns,
       parse_args ["-r"; r; "-a"; a; "-s"; s] = Ok ns /\
       ns !! "aws_security_token" = Some PNone /\
       credentials ns = Ok (Session (PStr r) (PStr a) (PStr s) PNone) /\
       script api ["-r"; r; "-a"; a; "-s"; s] = main api ns) /\
  (forall r a s t,
     value_like r = true -> value_like a = true ->
     value_like s = true -> value_like t = true ->
     exists ns,
       parse_args ["-r"; r; "-a"; a; "-s"; s; "-t"; t] = Ok ns /\
       parse_args ["--aws_region"; r; "--aws_access_key"; a;
                   "--aws_secret_key"; s; "--aws_security_token"; t] = Ok ns /\
       credentials ns = Ok (Session (PStr r) (PStr a) (PStr s) (PStr t))) /\
  (forall r a s t,
     exists ns,
       parse_args ["--aws_region=" +:+ r; "--aws_access_key=" +:+ a;
                   "--aws_secret_key=" +:+ s; "--aws_security_token=" +:+ t] = Ok ns /\
       credentials ns =
         Ok (Session (get_values r) (get_values a) (get_values s) (get_values t))).
Proof.
  split; [reflexivity |]. split; [reflexivity |]. split; [| split; [| split]].
  - intros argv ns Hparse. unfold parse_args in Hparse.
    destruct (classify argv) as [tokens|] eqn:Hclass; [| discriminate].
    destruct (consume tokens (Scan defaults [] false)) as [s'|e] eqn:Hrun;
      [| discriminate].
    destruct (forallb _ parser_arguments) eqn:Hreq; [| discriminate].
    destruct (extras s') eqn:Hextras; [discriminate |]. simplify_eq.
    apply (consume_scanned (length tokens)) in Hrun as [[Hseen Hns] Hflags];
      [| lia | by eapply classify_known | apply scanned_start].
    destruct (Hflags Hextras) as [_ Hdeclared].
    cbn in Hreq. rewrite !andb_true_iff in Hreq.
    destruct Hreq as (Hr & Ha & Hs & _).
    apply mem_elem_of, Hseen in Hr as (r & Hr & Hr').
    apply mem_elem_of, Hseen in Ha as (a & Ha & Ha').
    apply mem_elem_of, Hseen in Hs as (s & Hs & Hs').
    split; [by exists r, a, s |]. split; [| split; [| by exists tokens]].
    + destruct (Hns "aws_security_token") as [Hd | (t & Ht & Ht' & _)];
        [left | right; eauto].
      rewrite Hd. reflexivity.
    + intros d Hd.
      assert (is_Some (defaults !! d)) as Hdef.
      { destruct (Hns d) as [Heq | (v & _ & _ & ?)]; [by rewrite <- Heq | done]. }
      unfold defaults in Hdef. cbn [foldr parser_arguments dest] in Hdef.
      cbn [List.map parser_arguments dest].
      rewrite !elem_of_cons.
      destruct (decide (d = "aws_region")) as [-> | ?]; [auto |].
      destruct (decide (d = "aws_access_key")) as [-> | ?]; [auto |].
      destruct (decide (d = "aws_secret_key")) as [-> | ?]; [auto |].
      destruct (decide (d = "aws_security_token")) as [-> | ?]; [auto 6 |].
      rewrite !lookup_insert_ne, lookup_empty in Hdef by done.
      by destruct Hdef.
  - intros api r a s Hr Ha Hs.
    destruct (parse_args_separate "-r" "-a" "-s" "-t" r a s s) as [Hparse _];
      try done.
    eexists. split; [exact Hparse |].
    assert ((<["aws_secret_key" := PStr s]>
               (<["aws_access_key" := PStr a]>
                  (<["aws_region" := PStr r]> defaults)) : gmap string pyobj)
              !! "aws_security_token" = Some PNone) as Htoken.
    { by rewrite !lookup_insert_ne by done. }
    split; [done |]. split.
    + apply credentials_of; [| | | done].
      * by rewrite lookup_insert_ne, lookup_insert_ne, lookup_insert_eq.
      * by rewrite lookup_insert_ne, lookup_insert_eq.
      * by rewrite lookup_insert_eq.
    + unfold script. rewrite Hparse. reflexivity.
  - intros r a s t Hr Ha Hs Ht.
    destruct (parse_args_separate "-r" "-a" "-s" "-t" r a s t) as [_ Hshort];
      try done.
    destruct (parse_args_separate "--aws_region" "--aws_access_key"
                "--aws_secret_key" "--aws_security_token" r a s t) as [_ Hlong];
      try done.
    eexists. split; [exact Hshort |]. split; [exact Hlong |].
    apply credentials_of.
    + by rewrite !lookup_insert_ne, lookup_insert_eq by done.
    + by rewrite !lookup_insert_ne, lookup_insert_eq by done.
    + by rewrite lookup_insert_ne, lookup_insert_eq by done.
    + by rewrite lookup_insert_eq.
  - intros r a s t.
    exists (<["aws_security_token" := get_values t]>
              (<["aws_secret_key" := get_values s]>
                 (<["aws_access_key" := get_values a]>
                    (<["aws_region" := get_values r]> defaults)))).
    split.
    + unfold parse_args.
      rewrite (classify_option ("--aws_region=" +:+ r) _
                 (Some (Store region_argument)) "--aws_region" (Some r))
        by reflexivity.
      rewrite (classify_option ("--aws_access_key=" +:+ a) _
                 (Some (Store access_argument)) "--aws_access_key" (Some a))
        by reflexivity.
      rewrite (classify_option ("--aws_secret_key=" +:+ s) _
                 (Some (Store secret_argument)) "--aws_secret_key" (Some s))
        by reflexivity.
      rewrite (classify_option ("--aws_security_token=" +:+ t) _
                 (Some (Store token_argument)) "--aws_security_token" (Some t))
        by reflexivity.
      reflexivity.
    + apply credentials_of.
      * by rewrite !lookup_insert_ne, lookup_insert_eq by done.
      * by rewrite !lookup_insert_ne, lookup_insert_eq by done.
      * by rewrite lookup_insert_ne, lookup_insert_eq by done.
      * by rewrite lookup_insert_eq.
Qed.

End CommandLine.

(** ** The sample runs *)

Module Runs.

Import Samples.

Lemma collection :
  get_formated_buckets_list api opt (fresh ∅) = (Ok (Some rows), collected).
Proof. vm_compute. reflexivity. Qed.

Lemma report :
  files (snd (main api opt (fresh ∅))) !! "output.csv" =
    Some ("Account ID,Account Aliases,S3 Bucket Name,S3 Bucket Region,Analytics"
            +:+ lineterminator +:+
          "0123abcd,['acme'],logs,,Y" +:+ lineterminator +:+
          "0123abcd,['acme'],media,eu-central-1,N" +:+ lineterminator).
Proof. vm_compute. reflexivity. Qed.

(** A refused location request reaches the handler of
    [get_formated_buckets_list]. *)
Example location_refused :
  get_formated_buckets_list location_refused_api opt (fresh ∅) =
    (Ok None,
     World [credentials_message "AccessDenied"]
       [ListBuckets; GetBucketAcl "logs"; ListAccountAliases; GetBucketLocation "logs"]
       ∅).
Proof. vm_compute. reflexivity. Qed.

(** When no client can be built, [get_client] prints and returns [None];
    the method call on [None] then ends the run with an [AttributeError]. *)
Example clientless :
  main clientless_api opt (fresh ∅) =
    (Raise (AttributeError "get_paginator"),
     World [credentials_message "InvalidClientTokenId"]
       [ListBuckets; GetBucketAcl "logs"] ∅).
Proof. vm_compute. reflexivity. Qed.

Lemma C1_witness :
  get_formated_buckets_list api opt (fresh ∅) = (Ok (Some rows), collected) /\
  exists buckets w2,
    listing api opt = Ok buckets /\
    main api opt (fresh ∅) = (Ok tt, w2) /\
    (rows <> [] ->
     files w2 !! "output.csv" = Some (writerow header +:+ records rows)) /\
    length rows = length buckets /\
    forall i bucket, buckets !! i = Some bucket ->
      exists row, rows !! i = Some row /\ row !! 2 = Some (PStr (name bucket)).
Proof.
  assert (get_formated_buckets_list api opt (fresh ∅) = (Ok (Some rows), collected))
    as H by (vm_compute; reflexivity).
  split; [exact H |].
  exact (C1_rows_follow_listing api opt (fresh ∅) rows collected H).
Defined.

Lemma C7_witness :
  get_formated_buckets_list api opt (fresh ∅) = (Ok (Some rows), collected) /\
  exists buckets,
    listing api opt = Ok buckets /\
    Forall2
      (fun bucket row =>
         length row = 5 /\
         exists c owner id aliases wa wb location region flag,
           row = [id; PStr aliases; PStr (name bucket); region; PStr flag] /\
           Acl_owner bucket = Ok owner /\ owner !! "ID" = Some id /\
           get_acc_aliases api opt wa = (Ok aliases, wb) /\
           constructed api opt "s3" = Ok c /\
           get_bucket_location c (name bucket) = Ok location /\
           location !! "LocationConstraint" = Some region /\
           (flag = "Y" \/ flag = "N"))
      buckets rows.
Proof.
  assert (get_formated_buckets_list api opt (fresh ∅) = (Ok (Some rows), collected))
    as H by (vm_compute; reflexivity).
  split; [exact H |].
  exact (C7_five_fields api opt (fresh ∅) rows collected H).
Defined.

Lemma C10_witness :
  get_formated_buckets_list api opt (fresh ∅) = (Ok (Some rows), collected) /\
  exists buckets,
    listing api opt = Ok buckets /\
    forall i bucket, buckets !! i = Some bucket ->
      exists c location region row,
        constructed api opt "s3" = Ok c /\
        get_bucket_location c (name bucket) = Ok location /\
        location !! "LocationConstraint" = Some region /\
        rows !! i = Some row /\
        row !! 3 = Some region /\
        (region = PNone ->
         exists id aliases flag,
           row = [id; aliases; PStr (name bucket); PNone; flag] /\
           csv_field region = EmptyString /\
           writerow row =
             csv_field id +:+ "," +:+ csv_field aliases +:+ "," +:+
             csv_field (PStr (name bucket)) +:+ "," +:+ EmptyString +:+ "," +:+
             csv_field flag +:+ lineterminator).
Proof.
  assert (get_formated_buckets_list api opt (fresh ∅) = (Ok (Some rows), collected))
    as H by (vm_compute; reflexivity).
  split; [exact H |].
  exact (C10_region_is_raw api opt (fresh ∅) rows collected H).
Defined.





Lemma C4_witness :
  get_formated_buckets_list refused_api opt (fresh ∅) =
    (Ok None, World [credentials_message "InvalidAccessKeyId"] [ListBuckets] ∅) /\
  list_truthy None = false /\
  main refused_api opt (fresh ∅) =
    (Ok tt, World [credentials_message "InvalidAccessKeyId"] [ListBuckets] ∅) /\
  files (World [credentials_message "InvalidAccessKeyId"] [ListBuckets] ∅) = files (fresh ∅).
Proof.
  assert (get_formated_buckets_list refused_api opt (fresh ∅) =
            (Ok None, World [credentials_message "InvalidAccessKeyId"] [ListBuckets] ∅))
    as H by (vm_compute; reflexivity).
  split; [exact H |]. split; [reflexivity |].
  exact (C4_falsy_list_writes_nothing refused_api opt (fresh ∅) None _ H eq_refl).
Defined.

Lemma C5_witness :
  get_formated_buckets_list api opt (fresh ∅) = (Ok (Some rows), collected) /\
  list_truthy (Some rows) = true /\
  exists rows' w2,
    Some rows = Some rows' /\
    main api opt (fresh ∅) = (Ok tt, w2) /\
    files w2 !! "output.csv" =
      Some ("Account ID,Account Aliases,S3 Bucket Name,S3 Bucket Region,Analytics"
              +:+ lineterminator +:+ records rows').
Proof.
  assert (get_formated_buckets_list api opt (fresh ∅) = (Ok (Some rows), collected))
    as H by (vm_compute; reflexivity).
  split; [exact H |]. split; [reflexivity |].
  exact (C5_header_line_first api opt (fresh ∅) (Some rows) collected H eq_refl).
Defined.

Lemma C9_witness :
  listing empty_api opt = Ok [] /\
  main empty_api opt (fresh ∅) =
    (Ok tt, World (stdout (fresh ∅)) (calls (fresh ∅) ++ [ListBuckets]) (files (fresh ∅))).
Proof.
  assert (listing empty_api opt = Ok []) as H by (vm_compute; reflexivity).
  split; [exact H |].
  exact (C9_no_buckets_no_file empty_api opt (fresh ∅) H).
Defined.

Lemma C8_witness :
  (parse_args ["-r"; "eu-central-1"; "-a"; "AKIAEXAMPLE"; "-s"; "secret"] = Ok opt /\
   (exists r a s,
      opt !! "aws_region" = Some r /\ assigned r /\
      opt !! "aws_access_key" = Some a /\ assigned a /\
      opt !! "aws_secret_key" = Some s /\ assigned s) /\
   (opt !! "aws_security_token" = Some PNone \/
    exists t, opt !! "aws_security_token" = Some t /\ assigned t) /\
   (forall d, is_Some (opt !! d) -> d ∈ List.map dest parser_arguments) /\
   exists tokens,
     classify ["-r"; "eu-central-1"; "-a"; "AKIAEXAMPLE"; "-s"; "secret"] = Ok tokens /\
     declared_only tokens) /\
  (value_like "eu-central-1" = true /\
   value_like "AKIAEXAMPLE" = true /\
   value_like "secret" = true /\
   exists ns,
     parse_args ["-r"; "eu-central-1"; "-a"; "AKIAEXAMPLE"; "-s"; "secret"] = Ok ns /\
     ns !! "aws_security_token" = Some PNone /\
     credentials ns =
       Ok (Session (PStr "eu-central-1") (PStr "AKIAEXAMPLE") (PStr "secret") PNone) /\
     script api ["-r"; "eu-central-1"; "-a"; "AKIAEXAMPLE"; "-s"; "secret"] = main api ns) /\
  (value_like "-1" = true /\
   value_like "FQoGZXIvYXdzEXAMPLE" = true /\
   exists ns,
     parse_args ["-r"; "-1"; "-a"; "AKIAEXAMPLE"; "-s"; "secret";
                 "-t"; "FQoGZXIvYXdzEXAMPLE"] = Ok ns /\
     parse_args ["--aws_region"; "-1"; "--aws_access_key"; "AKIAEXAMPLE";
                 "--aws_secret_key"; "secret";
                 "--aws_security_token"; "FQoGZXIvYXdzEXAMPLE"] = Ok ns /\
     credentials ns =
       Ok (Session (PStr "-1") (PStr "AKIAEXAMPLE") (PStr "secret")
                   (PStr "FQoGZXIvYXdzEXAMPLE"))).
Proof.
  assert (parse_args ["-r"; "eu-central-1"; "-a"; "AKIAEXAMPLE"; "-s"; "secret"] = Ok opt)
    as H by (vm_compute; reflexivity).
  destruct C8_four_options as (_ & _ & Haccepted & Hrun & Htoken & _).
  split; [| split].
  - split; [exact H |]. exact (Haccepted _ _ H).
  - split; [reflexivity |]. split; [reflexivity |]. split; [reflexivity |].
    exact (Hrun api "eu-central-1" "AKIAEXAMPLE" "secret" eq_refl eq_refl eq_refl).
  - split; [reflexivity |]. split; [reflexivity |].
    exact (Htoken "-1" "AKIAEXAMPLE" "secret" "FQoGZXIvYXdzEXAMPLE"
                  eq_refl eq_refl eq_refl eq_refl).
Defined.

End Runs.

(** ** Further properties: the helpers *)

Section Pagination.

Variable api : boto3.
Variable opt : gmap string pyobj.

(** [get_client], by what the construction gives. *)
Lemma get_client_eq service w :
  get_client api opt service w =
    match constructed api opt service with
    | Ok c => (Ok (Some c), w)
    | Raise (ClientError err) => (Ok None, printed (credentials_message err) w)
    | Raise e => (Raise e, w)
    end.
Proof.
  unfold get_client, try_except_ClientError, bind, lift, print, ret, constructed, printed.
  destruct (credentials opt) as [kw|e].
  - destruct (boto3_client api service kw) as [c|e]; [done |]. by destruct e.
  - by destruct e.
Qed.

Lemma requested_requested cs cs' w :
  requested cs' (requested cs w) = requested (cs ++ cs') w.
Proof. unfold requested. cbn. by rewrite app_assoc. Qed.

Lemma requested_nil w : requested [] w = w.
Proof. unfold requested. rewrite app_nil_r. by destruct w. Qed.

Lemma paginate_aliases_answered good values rest aliases w :
  Forall2 answered good values ->
  paginate_aliases (good ++ rest) aliases w =
    paginate_aliases rest (aliases ++ values)
      (requested (replicate (length good) ListAccountAliases) w).
Proof.
  intros H. revert aliases w.
  induction H as [|page v good values (d & -> & Hv) _ IH]; intros aliases w.
  - cbn [length replicate app]. by rewrite requested_nil, app_nil_r.
  - cbn [app paginate_aliases length replicate].
    unfold bind at 1. unfold request. unfold bind at 1. unfold lift, getitem.
    rewrite Hv. rewrite IH. rewrite <- app_assoc.
    f_equal. unfold requested. cbn. by rewrite <- app_assoc.
Qed.

(** The world after the loop depends on the pages alone. *)
Lemma paginate_aliases_world pages aliases w :
  snd (paginate_aliases pages aliases w) =
    requested (replicate (consumed pages) ListAccountAliases) w.
Proof.
  revert aliases w. induction pages as [|page rest IH]; intros aliases w.
  - cbn. by rewrite requested_nil.
  - cbn [paginate_aliases consumed].
    unfold bind at 1. unfold request. destruct page as [d|e]; [| done].
    unfold bind at 1. unfold lift, getitem.
    destruct (d !! "AccountAliases") as [v|]; [| done].
    rewrite IH. unfold requested. cbn. by rewrite <- app_assoc.
Qed.

(** The result of the loop does not depend on the world. *)
Lemma paginate_aliases_result pages aliases w w' :
  fst (paginate_aliases pages aliases w) = fst (paginate_aliases pages aliases w').
Proof.
  revert aliases w w'. induction pages as [|page rest IH]; intros aliases w w'.
  - done.
  - cbn [paginate_aliases].
    unfold bind at 1 3. unfold request. destruct page as [d|e]; [| done].
    unfold bind at 1 2. unfold lift, getitem.
    destruct (d !! "AccountAliases") as [v|]; [| done].
    apply IH.
Qed.

Lemma get_acc_aliases_built c w :
  constructed api opt "iam" = Ok c ->
  get_acc_aliases api opt w =
    match paginate_aliases (list_account_aliases_pages c) [] w with
    | (Ok aliases, w') => (Ok (join " " (List.map str aliases)), w')
    | (Raise (ClientError _), w') => (Ok "Not available", w')
    | (Raise e, w') => (Raise e, w')
    end.
Proof.
  intros Hc.
  unfold get_acc_aliases, acc_aliases_try, try_except_ClientError, get_iam_client.
  unfold bind at 1. rewrite get_client_eq, Hc. cbn [method].
  unfold bind, ret.
  destruct (paginate_aliases _ _ _) as [[aliases|e] w']; [done |]. by destruct e.
Qed.

Lemma get_acc_aliases_result w w' :
  fst (get_acc_aliases api opt w) = fst (get_acc_aliases api opt w').
Proof.
  destruct (constructed api opt "iam") as [c|e] eqn:Hc.
  - rewrite !(get_acc_aliases_built c) by done.
    pose proof (paginate_aliases_result (list_account_aliases_pages c) [] w w') as H.
    destruct (paginate_aliases _ _ w) as [[a|e] w1],
             (paginate_aliases _ _ w') as [[a'|e'] w1']; cbn in H; simplify_eq; [done |].
    by destruct e'.
  - unfold get_acc_aliases, acc_aliases_try, try_except_ClientError, get_iam_client.
    unfold bind. rewrite !get_client_eq, Hc. by destruct e.
Qed.

Lemma get_acc_aliases_Ok w aliases w' :
  get_acc_aliases api opt w = (Ok aliases, w') ->
  w' = requested (alias_requests api opt) w.
Proof.
  intros H. unfold alias_requests.
  destruct (constructed api opt "iam") as [c|e] eqn:Hc.
  - rewrite (get_acc_aliases_built c) in H by done.
    pose proof (paginate_aliases_world (list_account_aliases_pages c) [] w) as Hw.
    destruct (paginate_aliases _ _ w) as [[a|e] w1]; cbn in Hw; [by simplify_eq |].
    destruct e; by simplify_eq.
  - unfold get_acc_aliases, acc_aliases_try, try_except_ClientError, get_iam_client in H.
    unfold bind in H. rewrite get_client_eq, Hc in H. destruct e; by simplify_eq.
Qed.

(** X1: with an IAM client and every page answered with the key
    [AccountAliases], [get_acc_aliases] returns the [str] of each page's
    value, joined by single spaces and in page order; it sends one request
    per page, prints nothing and writes no file. *)
Theorem X1_aliases_of_all_pages c values w :
  constructed api opt "iam" = Ok c ->
  Forall2 answered (list_account_aliases_pages c) values ->
  get_acc_aliases api opt w =
    (Ok (join " " (List.map str values)),
     requested (replicate (length values) ListAccountAliases) w).
Proof.
  intros Hc Hpages. rewrite (get_acc_aliases_built c) by done.
  rewrite <- (app_nil_r (list_account_aliases_pages c)).
  rewrite (paginate_aliases_answered _ values) by done.
  cbn [paginate_aliases app]. unfold ret.
  by rewrite (Forall2_length _ _ _ Hpages).
Qed.

Lemma replicate_snoc {A} n (x : A) : replicate (S n) x = replicate n x ++ [x].
Proof. induction n as [|n IH]; [done |]. cbn. by rewrite <- IH. Qed.

(** The loop at a page that is not answered. *)
Lemma paginate_aliases_stop bad rest aliases w :
  (forall v, ~ answered bad v) ->
  paginate_aliases (bad :: rest) aliases w =
    (match bad with
     | Ok _ => Raise (KeyError "AccountAliases")
     | Raise e => Raise e
     end, requested [ListAccountAliases] w).
Proof.
  intros Hbad. cbn [paginate_aliases]. unfold bind at 1. unfold request.
  destruct bad as [d|e]; [| done].
  unfold bind, lift, getitem.
  destruct (d !! "AccountAliases") as [v|] eqn:Hv; [| done].
  destruct (Hbad v). by exists d.
Qed.

(** X2: when a page is refused with a [ClientError] after any number of
    answered pages, [get_acc_aliases] returns [Not available]: the aliases
    gathered so far are dropped, the pages after the refused one are never
    requested, and nothing is printed. *)
Theorem X2_refused_page_drops_aliases c good values err rest w :
  constructed api opt "iam" = Ok c ->
  list_account_aliases_pages c = good ++ Raise (ClientError err) :: rest ->
  Forall2 answered good values ->
  get_acc_aliases api opt w =
    (Ok "Not available",
     requested (replicate (S (length good)) ListAccountAliases) w).
Proof.
  intros Hc Hpages Hgood. rewrite (get_acc_aliases_built c) by done.
  rewrite Hpages, (paginate_aliases_answered _ values) by done.
  rewrite paginate_aliases_stop by (intros v (d & ? & _); discriminate).
  by rewrite requested_requested, replicate_snoc.
Qed.

(** X3: a page that lacks the key [AccountAliases], or that raises an
    exception other than a [ClientError], ends [get_acc_aliases] with
    that exception ([KeyError] for the missing key): the handler of
    [get_acc_aliases] does not turn it into [Not available]. *)
Theorem X3_other_page_errors_escape c good values bad e rest w :
  constructed api opt "iam" = Ok c ->
  list_account_aliases_pages c = good ++ bad :: rest ->
  Forall2 answered good values ->
  (bad = Raise e \/
   exists d, bad = Ok d /\ d !! "AccountAliases" = None /\ e = KeyError "AccountAliases") ->
  (forall err, e <> ClientError err) ->
  get_acc_aliases api opt w =
    (Raise e, requested (replicate (S (length good)) ListAccountAliases) w).
Proof.
  intros Hc Hpages Hgood Hbad He. rewrite (get_acc_aliases_built c) by done.
  rewrite Hpages, (paginate_aliases_answered _ values) by done.
  rewrite paginate_aliases_stop.
  - rewrite requested_requested, <- replicate_snoc.
    destruct Hbad as [-> | (d & -> & _ & ->)]; [| done].
    destruct e; try done. by destruct (He msg).
  - intros v (d & Hd & Hv).
    destruct Hbad as [-> | (d' & -> & Hnone & _)]; [discriminate |].
    simplify_eq.
Qed.

End Pagination.

Section Queries.

Variable api : boto3.
Variable opt : gmap string pyobj.

Lemma get_s3_bucket_region_eq bucket w :
  get_s3_bucket_region api opt bucket w =
    match constructed api opt "s3" with
    | Ok c =>
        (match get_bucket_location c bucket with
         | Ok location => getitem location "LocationConstraint"
         | Raise e => Raise e
         end, requested [GetBucketLocation bucket] w)
    | Raise (ClientError err) =>
        (Raise (AttributeError "get_bucket_location"),
         printed (credentials_message err) w)
    | Raise e => (Raise e, w)
    end.
Proof.
  unfold get_s3_bucket_region, get_s3_client. unfold bind at 1.
  rewrite get_client_eq. destruct (constructed api opt "s3") as [c|e].
  - cbn [method]. unfold bind, ret, request, lift, requested.
    by destruct (get_bucket_location c bucket).
  - by destruct e.
Qed.

Lemma is_analytics_enabled_eq bucket w :
  is_analytics_enabled api opt bucket w =
    match constructed api opt "s3" with
    | Ok c =>
        (match list_bucket_analytics_configurations c bucket with
         | Ok analytics =>
             Ok (if bool_decide (is_Some (analytics !! "AnalyticsConfigurationList"))
                 then PBool true else PNone)
         | Raise e => Raise e
         end, requested [ListBucketAnalyticsConfigurations bucket] w)
    | Raise (ClientError err) =>
        (Raise (AttributeError "list_bucket_analytics_configurations"),
         printed (credentials_message err) w)
    | Raise e => (Raise e, w)
    end.
Proof.
  unfold is_analytics_enabled, get_s3_client. unfold bind at 1.
  rewrite get_client_eq. destruct (constructed api opt "s3") as [c|e].
  - cbn [method]. unfold bind, ret, request, requested.
    destruct (list_bucket_analytics_configurations c bucket) as [d|e]; [| done].
    by case_bool_decide.
  - by destruct e.
Qed.

Lemma get_acc_aliases_clientless err w :
  constructed api opt "iam" = Raise (ClientError err) ->
  get_acc_aliases api opt w =
    (Raise (AttributeError "get_paginator"), printed (credentials_message err) w).
Proof.
  intros Hc.
  unfold get_acc_aliases, acc_aliases_try, try_except_ClientError, get_iam_client.
  unfold bind. by rewrite get_client_eq, Hc.
Qed.

Lemma formated_buckets_try_listed buckets w :
  listing api opt = Ok buckets ->
  formated_buckets_try api opt w =
    bind (collect api opt buckets []) (fun buckets_list => ret (Some buckets_list))
      (requested [ListBuckets] w).
Proof.
  unfold listing, formated_buckets_try. intros H.
  destruct (credentials opt) as [kw|e] eqn:Hkw; [| discriminate].
  destruct (boto3_resource api "s3" kw) as [s3|e] eqn:Hs3; [| discriminate].
  unfold bind at 1. unfold lift at 1. cbn beta iota.
  unfold bind at 1. unfold lift at 1. rewrite Hs3.
  unfold bind at 1. unfold request at 1. by rewrite H.
Qed.

(** X4: when the construction of a client raises a [ClientError],
    [get_client] has printed the message and returned [None], and the
    helper that asked for the client ends with an [AttributeError] for the
    method it calls on [None].  No request is sent.  This holds for
    [get_s3_bucket_region] and [is_analytics_enabled], and for
    [get_acc_aliases], whose handler for [ClientError] does not apply. *)
Theorem X4_helpers_without_client err :
  (constructed api opt "s3" = Raise (ClientError err) ->
   forall bucket w,
     get_s3_bucket_region api opt bucket w =
       (Raise (AttributeError "get_bucket_location"),
        printed (credentials_message err) w) /\
     is_analytics_enabled api opt bucket w =
       (Raise (AttributeError "list_bucket_analytics_configurations"),
        printed (credentials_message err) w)) /\
  (constructed api opt "iam" = Raise (ClientError err) ->
   forall w,
     get_acc_aliases api opt w =
       (Raise (AttributeError "get_paginator"),
        printed (credentials_message err) w)).
Proof.
  split.
  - intros Hc bucket w.
    by rewrite get_s3_bucket_region_eq, is_analytics_enabled_eq, Hc.
  - intros Hc w. by apply get_acc_aliases_clientless.
Qed.

(** X5: with an S3 client, [get_s3_bucket_region] and
    [is_analytics_enabled] each send exactly one request and print
    nothing.  An exception of the request leaves the helper as it is, a
    [ClientError] included; a location response without
    [LocationConstraint] gives a [KeyError]; the analytics check returns
    [True] or [None], by the presence of the key alone. *)
Theorem X5_queries_with_client c bucket w :
  constructed api opt "s3" = Ok c ->
  get_s3_bucket_region api opt bucket w =
    (match get_bucket_location c bucket with
     | Ok location =>
         match location !! "LocationConstraint" with
         | Some region => Ok region
         | None => Raise (KeyError "LocationConstraint")
         end
     | Raise e => Raise e
     end, requested [GetBucketLocation bucket] w) /\
  is_analytics_enabled api opt bucket w =
    (match list_bucket_analytics_configurations c bucket with
     | Ok analytics =>
         match analytics !! "AnalyticsConfigurationList" with
         | Some _ => Ok (PBool true)
         | None => Ok PNone
         end
     | Raise e => Raise e
     end, requested [ListBucketAnalyticsConfigurations bucket] w).
Proof.
  intros Hc. rewrite get_s3_bucket_region_eq, is_analytics_enabled_eq, Hc.
  split; [done |].
  destruct (list_bucket_analytics_configurations c bucket) as [d|e]; [| done].
  by destruct (d !! "AnalyticsConfigurationList").
Qed.

(** X6: when the account has a bucket whose ACL is answered and no IAM
    client can be built ([ClientError] at construction), [main] does not
    end in the printed-message path: after the listing and the first ACL
    request, [get_client] prints the message and the run ends with the
    [AttributeError] of [get_paginator].  No file is written. *)
Theorem X6_no_iam_client_ends_run bucket rest owner id err w :
  listing api opt = Ok (bucket :: rest) ->
  Acl_owner bucket = Ok owner ->
  owner !! "ID" = Some id ->
  constructed api opt "iam" = Raise (ClientError err) ->
  main api opt w =
    (Raise (AttributeError "get_paginator"),
     printed (credentials_message err)
       (requested [ListBuckets; GetBucketAcl (name bucket)] w)).
Proof.
  intros Hlist Howner Hid Hiam.
  rewrite (main_run api opt w (Raise (AttributeError "get_paginator"))
             (printed (credentials_message err)
                (requested [ListBuckets; GetBucketAcl (name bucket)] w))); [done |].
  unfold get_formated_buckets_list, try_except_ClientError.
  rewrite (formated_buckets_try_listed _ _ Hlist).
  unfold bind at 1. cbn [collect].
  unfold bind at 1. unfold request at 1. rewrite Howner.
  unfold bind at 1. unfold lift, getitem. rewrite Hid.
  unfold bind at 1. rewrite (get_acc_aliases_clientless err) by done.
  unfold requested. cbn. by rewrite <- app_assoc.
Qed.

End Queries.

(** ** Further properties: the report *)

Section Report.

Variable api : boto3.
Variable opt : gmap string pyobj.

(** The loop over buckets whose rows exist. *)
Lemma collect_rows buckets rows : forall buckets_list w,
  Forall2 (row_of api opt) buckets rows ->
  collect api opt buckets buckets_list w =
    (Ok (buckets_list ++ rows),
     requested (flat_map (bucket_requests api opt) buckets) w).
Proof.
  intros acc w H. revert acc w.
  induction H as [|bucket row buckets rows Hrow _ IH]; intros acc w.
  - cbn. unfold ret. by rewrite app_nil_r, requested_nil.
  - destruct Hrow as (c & owner & id & aliases & wa & wb & location & region
                        & analytics & Hc & Howner & Hid & Hal & Hloc & Hreg & Han & ->).
    cbn [collect flat_map].
    unfold bind at 1. unfold request at 1. rewrite Howner.
    unfold bind at 1. unfold lift at 1. unfold getitem at 1. rewrite Hid.
    unfold bind at 1.
    match goal with
    | |- context [get_acc_aliases api opt ?W] =>
        pose proof (get_acc_aliases_result api opt W wa) as Hsame;
        destruct (get_acc_aliases api opt W) as [r w3] eqn:Hrun
    end.
    rewrite Hal in Hsame. cbn in Hsame. subst r.
    apply get_acc_aliases_Ok in Hrun as ->.
    unfold bind at 1. rewrite get_s3_bucket_region_eq, Hc, Hloc.
    unfold getitem at 1. rewrite Hreg.
    unfold bind at 1. rewrite is_analytics_enabled_eq, Hc, Han.
    rewrite IH. f_equal.
    + rewrite <- app_assoc. by case_bool_decide.
    + rewrite !requested_requested. unfold bucket_requests, requested. cbn.
      f_equal. by rewrite <- !app_assoc.
Qed.

Lemma get_formated_buckets_list_rows buckets rows w :
  listing api opt = Ok buckets ->
  Forall2 (row_of api opt) buckets rows ->
  get_formated_buckets_list api opt w =
    (Ok (Some rows),
     requested (ListBuckets :: flat_map (bucket_requests api opt) buckets) w).
Proof.
  intros Hlist Hrows.
  unfold get_formated_buckets_list, try_except_ClientError.
  rewrite (formated_buckets_try_listed _ _ _ _ Hlist).
  unfold bind. rewrite (collect_rows _ _ _ _ Hrows). unfold ret.
  cbn [app]. by rewrite requested_requested.
Qed.

(** X7: [get_formated_buckets_list] returns a list of rows exactly when
    the listing is answered and every listed bucket has its row, that is,
    its ACL holds an [ID], an S3 client exists, its location response holds
    [LocationConstraint], its analytics request is answered and
    [get_acc_aliases] returns a string; the rows are then those rows, in
    listing order. *)
Theorem X7_rows_iff_all_answered w rows :
  (exists w1, get_formated_buckets_list api opt w = (Ok (Some rows), w1)) <->
  (exists buckets,
     listing api opt = Ok buckets /\ Forall2 (row_of api opt) buckets rows).
Proof.
  split.
  - intros [w1 H]. by apply get_formated_buckets_list_Some in H.
  - intros (buckets & Hlist & Hrows). eexists.
    by apply get_formated_buckets_list_rows.
Qed.

(** X8: the report is all or nothing.  When one listed bucket is
    unanswered (its ACL fails or has no [ID], or no S3 client exists, or
    its location fails or has no [LocationConstraint], or its analytics
    request fails), no run of [main] writes anything, whatever the other
    buckets answer. *)
Theorem X8_one_unanswered_bucket_no_file buckets bucket w r w2 :
  listing api opt = Ok buckets ->
  bucket ∈ buckets ->
  unanswered api opt bucket ->
  main api opt w = (r, w2) ->
  files w2 = files w.
Proof.
  intros Hlist Hin Hun Hmain.
  destruct (get_formated_buckets_list api opt w) as [r1 w1] eqn:Hrun.
  rewrite (main_run _ _ _ _ _ Hrun) in Hmain.
  pose proof (keeps_get_formated_buckets_list _ _ _ _ _ Hrun) as Hkeep.
  destruct r1 as [[rows|]|e]; [| by simplify_eq..].
  exfalso.
  apply get_formated_buckets_list_Some in Hrun as (buckets' & Hlist' & Hrows).
  rewrite Hlist in Hlist'. simplify_eq.
  apply list_elem_of_lookup in Hin as [i Hi].
  destruct (Forall2_lookup_l _ _ _ _ _ Hrows Hi) as (row & _ & Hrow).
  destruct Hrow as (c & owner & id & aliases & wa & wb & location & region
                      & analytics & Hc & Howner & Hid & _ & Hloc & Hreg & Han & _).
  destruct Hun as [Hacl | Hs3].
  - rewrite (Hacl _ Howner) in Hid. discriminate.
  - destruct (Hs3 _ Hc) as [Hl | Ha].
    + rewrite (Hl _ Hloc) in Hreg. discriminate.
    + by destruct (Ha analytics).
Qed.

(** X9: a collection that returns its rows has printed nothing and
    written nothing, and its requests are, in this order: the listing,
    then for each bucket in listing order its ACL, the alias pages, its
    location and its analytics configurations.  The alias pages are
    requested again for every bucket. *)
Theorem X9_requests_in_order w rows w1 :
  get_formated_buckets_list api opt w = (Ok (Some rows), w1) ->
  exists buckets,
    listing api opt = Ok buckets /\
    stdout w1 = stdout w /\
    files w1 = files w /\
    calls w1 =
      calls w ++ ListBuckets :: flat_map (bucket_requests api opt) buckets.
Proof.
  intros Hrun.
  destruct (get_formated_buckets_list_Some _ _ _ _ _ Hrun) as (buckets & Hlist & Hrows).
  rewrite (get_formated_buckets_list_rows _ _ w Hlist Hrows) in Hrun.
  exists buckets. by simplify_eq.
Qed.

(** X10: [main] leaves every file other than [output.csv] as it was,
    whatever the outcome of the run. *)
Theorem X10_only_output_csv w r w2 path :
  main api opt w = (r, w2) ->
  path <> "output.csv" ->
  files w2 !! path = files w !! path.
Proof.
  intros Hmain Hpath.
  destruct (get_formated_buckets_list api opt w) as [r1 w1] eqn:Hrun.
  rewrite (main_run _ _ _ _ _ Hrun) in Hmain.
  rewrite <- (keeps_get_formated_buckets_list _ _ _ _ _ Hrun).
  destruct r1 as [[[|row rows]|]|e]; simplify_eq; try done.
  cbn [files]. by rewrite lookup_insert_ne.
Qed.

(** X11: no [ClientError] leaves [main]: a run ends normally or with an
    exception of another kind. *)
Theorem X11_main_never_raises_ClientError w err :
  fst (main api opt w) <> Raise (ClientError err).
Proof.
  destruct (get_formated_buckets_list api opt w) as [r1 w1] eqn:Hrun.
  rewrite (main_run _ _ _ _ _ Hrun).
  destruct r1 as [[[|row rows]|]|e]; try done.
  cbn [fst]. intros Heq. simplify_eq.
  eapply (try_except_never_ClientError _ _ _ _ _ err); [| exact Hrun | done].
  intros e' w' r' w'' Hh. unfold bind, print, ret in Hh. by simplify_eq.
Qed.

End Report.

(** ** Further properties: the command line *)

Section Options.

Lemma consume_raises n : forall tokens s e,
  length tokens <= n -> consume tokens s = Raise e -> exists code, e = SystemExit code.
Proof.
  induction n as [|n IH]; intros tokens s e Hlen Hrun.
  - destruct tokens; [discriminate | simpl in Hlen; lia].
  - destruct tokens as [|tok rest]; [discriminate |]. simpl in Hlen.
    destruct tok as [v | [[a|]|] os [ex|] | ]; cbn [consume] in Hrun;
      try (eapply IH; [| exact Hrun]; lia).
    + destruct rest as [|[v| |] rest']; try (simplify_eq; eauto).
      simpl in Hlen. eapply IH; [| exact Hrun]. lia.
    + repeat case_match; simplify_eq; eauto.
    + simplify_eq. eauto.
Qed.

Lemma parse_args_raises argv e :
  parse_args argv = Raise e -> exists code, e = SystemExit code.
Proof.
  unfold parse_args.
  destruct (classify argv) as [tokens|e'] eqn:Hclass.
  - destruct (consume tokens _) as [s'|e'] eqn:Hrun.
    + destruct (forallb _ _); [destruct (extras s') |]; intros H; simplify_eq; eauto.
    + intros H. simplify_eq. by eapply (consume_raises (length tokens)).
  - intros H. simplify_eq. apply classify_raises in Hclass as ->. eauto.
Qed.

(** A destination is seen only through a storing option of the
    pattern. *)
Lemma consume_seen n : forall tokens s s',
  length tokens <= n -> consume tokens s = Ok s' ->
  forall d, d ∈ seen s' ->
    d ∈ seen s \/
    exists a option_string explicit_arg,
      O (Some (Store a)) option_string explicit_arg ∈ tokens /\ dest a = d.
Proof.
  induction n as [|n IH]; intros tokens s s' Hlen Hrun d Hd.
  - destruct tokens; [| simpl in Hlen; lia]. cbn in Hrun. simplify_eq. by left.
  - destruct tokens as [|tok rest]; [cbn in Hrun; simplify_eq; by left |].
    simpl in Hlen.
    assert (forall s0, seen s0 = seen s -> consume rest s0 = Ok s' ->
              d ∈ seen s \/
              exists a os ex, O (Some (Store a)) os ex ∈ tok :: rest /\ dest a = d)
      as Hskip.
    { intros s0 Hs0 H. assert (length rest <= n) as Hl by lia.
      destruct (IH _ _ _ Hl H d Hd) as [Hseen | (a & os & ex & ? & ?)].
      - left. by rewrite <- Hs0.
      - right. exists a, os, ex. split; [by apply list_elem_of_further | done]. }
    destruct tok as [v | [[a|]|] os [ex|] | ]; cbn [consume] in Hrun;
      try (by eapply Hskip; [| exact Hrun]).
    + assert (length rest <= n) as Hl by lia.
      destruct (IH _ _ _ Hl Hrun d Hd) as [Hseen | (a' & os' & ex' & ? & ?)].
      * cbn [seen store] in Hseen.
        apply elem_of_cons in Hseen as [-> | Hseen]; [| by left].
        right. exists a, os, (Some ex). split; [apply list_elem_of_here | done].
      * right. exists a', os', ex'. split; [by apply list_elem_of_further | done].
    + destruct rest as [|[v| |] rest']; try discriminate. simpl in Hlen.
      assert (length rest' <= n) as Hl by lia.
      destruct (IH _ _ _ Hl Hrun d Hd) as [Hseen | (a' & os' & ex' & ? & ?)].
      * cbn [seen store] in Hseen.
        apply elem_of_cons in Hseen as [-> | Hseen]; [| by left].
        right. exists a, os, None. split; [apply list_elem_of_here | done].
      * right. exists a', os', ex'.
        split; [by apply list_elem_of_further, list_elem_of_further | done].
    + repeat case_match; discriminate.
    + discriminate.
Qed.

Lemma dest_inj a a' :
  a ∈ parser_arguments -> a' ∈ parser_arguments -> dest a = dest a' -> a = a'.
Proof.
  unfold parser_arguments. rewrite !elem_of_cons, !elem_of_nil.
  intros [-> | [-> | [-> | [-> | []]]]] [-> | [-> | [-> | [-> | []]]]];
    cbn; intros H; first [done | discriminate].
Qed.

(** X13: when no argument of the command line is read as a required
    option, in any of its spellings, [parse_args] gives no namespace and
    the script ends with [SystemExit] in the world it started in: no
    request is sent, nothing is printed by the script's functions and no
    file is written. *)
Theorem X13_missing_required_option api a argv w :
  a ∈ parser_arguments ->
  required a = true ->
  (forall t option_string explicit_arg,
     t ∈ argv ->
     parse_optional t <> Optional (Some (Store a)) option_string explicit_arg) ->
  exists code, script api argv w = (Raise (SystemExit code), w).
Proof.
  intros Ha Hreq Habsent.
  destruct (parse_args argv) as [ns|e] eqn:Hparse.
  - exfalso. unfold parse_args in Hparse.
    destruct (classify argv) as [tokens|] eqn:Hclass; [| discriminate].
    destruct (consume tokens _) as [s'|e] eqn:Hrun; [| discriminate].
    destruct (forallb _ parser_arguments) eqn:Hall; [| discriminate].
    rewrite forallb_forall in Hall.
    apply list_elem_of_In in Ha as Hin. specialize (Hall a Hin).
    rewrite Hreq in Hall. cbn in Hall. apply mem_elem_of in Hall.
    destruct (consume_seen (length tokens) _ _ _ (le_n _) Hrun _ Hall)
      as [Hnil | (a' & os & ex & Htok & Hdest)].
    + cbn in Hnil. by apply elem_of_nil in Hnil.
    + destruct (classify_origin _ _ _ _ _ Hclass Htok) as (t & Ht & Hp).
      assert (a' = a) as ->.
      { apply dest_inj; [by eapply parse_optional_Store | done..]. }
      by destruct (Habsent t os ex Ht).
  - destruct (parse_args_raises _ _ Hparse) as [code ->].
    exists code. unfold script, bind, lift. by rewrite Hparse.
Qed.


Lemma lookup_action_In t x :
  lookup_action t = Some x -> In (t, x) option_string_actions.
Proof.
  unfold lookup_action.
  destruct (List.find _ option_string_actions) as [[k y]|] eqn:Hfind; [| discriminate].
  intros H. apply find_some in Hfind as [Hin Heq].
  cbn in Heq, H. apply String.eqb_eq in Heq. by simplify_eq.
Qed.

Lemma short_form_spec t :
  String.eqb (short_form t) "--" = String.eqb t "--" /\
  (short_form t = t \/
   exists a,
     parse_optional t = Optional (Some (Store a)) t None /\
     parse_optional (short_form t) = Optional (Some (Store a)) (short_form t) None).
Proof.
  unfold short_form.
  destruct (lookup_action t) as [[a|]|] eqn:Hlook; [| by auto..].
  apply lookup_action_In in Hlook. unfold option_string_actions in Hlook.
  cbn in Hlook.
  repeat (destruct Hlook as [Heq | Hlook];
          [first [discriminate
                 | injection Heq as <- <-; split; [reflexivity |];
                   right; eexists; split; reflexivity] |]).
  destruct Hlook.
Qed.

Lemma consume_rest xs : forall s,
  consume (List.map A xs) (left_over s) = Ok (left_over s).
Proof.
  induction xs as [|x xs IH]; intros s; [done |].
  cbn [List.map consume]. apply (IH (left_over s)).
Qed.

Lemma alike_argument_next l l' :
  alike l l' ->
  match l with A _ :: _ => true | _ => false end =
  match l' with A _ :: _ => true | _ => false end.
Proof. intros H. destruct H as [|[]| |]; reflexivity. Qed.

Lemma consume_alike n : forall l l' s,
  length l <= n -> alike l l' -> consume l s = consume l' s.
Proof.
  induction n as [|n IH]; intros l l' s Hlen H.
  - destruct H; simpl in Hlen; first [done | lia].
  - destruct H as [|tok l l' H|a os os' ex l l' H|xs ys]; [done | | |].
    + simpl in Hlen. assert (length l <= n) as Hl by lia.
      destruct tok as [v | [[a|]|] os [ex|] | ]; cbn [consume];
        try (by apply IH).
      * destruct H as [|tok2 l2 l2' H2| |]; try done.
        destruct tok2; try done. simpl in Hl. apply IH; [lia | done].
      * by rewrite (alike_argument_next _ _ H).
      * reflexivity.
    + simpl in Hlen. assert (length l <= n) as Hl by lia.
      destruct ex as [ex|]; cbn [consume]; [by apply IH |].
      destruct H as [|tok2 l2 l2' H2| |]; try done.
      destruct tok2; try done. simpl in Hl. apply IH; [lia | done].
    + cbn [consume]. by rewrite !consume_rest.
Qed.

Lemma classify_short_form argv :
  match classify (List.map short_form argv), classify argv with
  | Ok l, Ok l' => alike l l'
  | Raise e, Raise e' => e = e'
  | _, _ => False
  end.
Proof.
  induction argv as [|t rest IH]; [constructor |].
  cbn [List.map classify].
  destruct (short_form_spec t) as [-> Hform].
  destruct (String.eqb t "--") eqn:Ht.
  { apply String.eqb_eq in Ht as ->. apply alike_rest. }
  destruct Hform as [-> | (a & -> & ->)].
  - destruct (parse_optional t); [| | done];
      destruct (classify (List.map short_form rest)), (classify rest);
      first [done | by constructor].
  - destruct (classify (List.map short_form rest)), (classify rest);
      first [done | by constructor].
Qed.

(** X12: the two spellings of an option are interchangeable: replacing
    every long option by its short form leaves the result of
    [parse_args] unchanged, be it a namespace or an exit. *)
Theorem X12_short_and_long_spellings argv :
  parse_args (List.map short_form argv) = parse_args argv.
Proof.
  unfold parse_args. pose proof (classify_short_form argv) as H.
  destruct (classify (List.map short_form argv)) as [l|e],
           (classify argv) as [l'|e']; try done.
  - by rewrite (consume_alike (length l) l l').
  - by subst.
Qed.

End Options.

(** ** Further properties: the text of a row *)

Section Fields.

Lemma append_cons c (s u : string) : String c s +:+ u = String c (s +:+ u).
Proof. reflexivity. Qed.

Lemma doubled_cons c s :
  doubled (String c s) =
    if Ascii.eqb c quotechar then String c (String c (doubled s))
    else String c (doubled s).
Proof. reflexivity. Qed.

(** Two quoted bodies that agree up to the closing quote come from the
    same text. *)
Lemma quoted_inj s : forall t,
  doubled s +:+ str1 quotechar = doubled t +:+ str1 quotechar -> s = t.
Proof.
  assert (forall d t,
            String quotechar EmptyString <>
            doubled (String d t) +:+ str1 quotechar) as Hstart.
  { intros d t H. rewrite doubled_cons in H.
    destruct (Ascii.eqb d quotechar) eqn:Hd; rewrite !append_cons in H.
    - simplify_eq.
    - injection H as Hq _. subst d. by rewrite Ascii.eqb_refl in Hd. }
  induction s as [|c s IH]; intros [|d t] H.
  - done.
  - by destruct (Hstart d t).
  - symmetry in H. by destruct (Hstart c s).
  - rewrite !doubled_cons in H.
    destruct (Ascii.eqb c quotechar) eqn:Hc, (Ascii.eqb d quotechar) eqn:Hd;
      rewrite !append_cons in H; simplify_eq;
      first [congruence | f_equal; by apply IH].
Qed.

(** X15: the CSV writer keeps string fields apart: two strings that are
    written as the same field text are the same string, whether or not
    they needed quotes. *)
Theorem X15_field_text_determines_string s t :
  csv_field (PStr s) = csv_field (PStr t) -> s = t.
Proof.
  unfold csv_field. cbn [field_text str].
  destruct (has_special s) eqn:Hs, (has_special t) eqn:Ht; intros H.
  - change (String quotechar (doubled s +:+ str1 quotechar) =
            String quotechar (doubled t +:+ str1 quotechar)) in H.
    simplify_eq. by apply quoted_inj.
  - exfalso. subst t.
    change (has_special (String quotechar (doubled s +:+ str1 quotechar)) = false) in Ht.
    cbn [has_special] in Ht. discriminate.
  - exfalso. subst s.
    change (has_special (String quotechar (doubled t +:+ str1 quotechar)) = false) in Hs.
    cbn [has_special] in Hs. discriminate.
  - done.
Qed.

End Fields.

Section AliasText.

Variable api : boto3.
Variable opt : gmap string pyobj.

(** X16: when the account's aliases come in one page, the alias field
    of the report is that page's list in Python's list syntax: an opening
    bracket, the [repr] of each alias separated by a comma and a space,
    and a closing bracket. *)
Theorem X16_alias_field_is_list_syntax c d names w :
  constructed api opt "iam" = Ok c ->
  list_account_aliases_pages c = [Ok d] ->
  d !! "AccountAliases" = Some (PList (List.map PStr names)) ->
  get_acc_aliases api opt w =
    (Ok ("[" +:+ join ", " (List.map repr_str names) +:+ "]"),
     requested [ListAccountAliases] w).
Proof.
  intros Hc Hpages Hd. rewrite (get_acc_aliases_built _ _ c) by done.
  rewrite Hpages.
  rewrite (paginate_aliases_answered [Ok d] [PList (List.map PStr names)] [])
    by (repeat constructor; by exists d).
  cbn [paginate_aliases app List.map join str length replicate]. unfold ret.
  change (join " " (List.map str [PList (List.map PStr names)]))
    with ("[" +:+ join ", " (List.map repr (List.map PStr names)) +:+ "]").
  by rewrite List.map_map.
Qed.

End AliasText.

(** ** Further properties: failed runs *)

Section Failures.

Variable api : boto3.
Variable opt : gmap string pyobj.

(** The loop over buckets, past the buckets whose rows exist. *)
Lemma collect_prefix done rows rest : forall buckets_list w,
  Forall2 (row_of api opt) done rows ->
  collect api opt (done ++ rest) buckets_list w =
    collect api opt rest (buckets_list ++ rows)
      (requested (flat_map (bucket_requests api opt) done) w).
Proof.
  intros acc w H. revert acc w.
  induction H as [|bucket row done rows Hrow _ IH]; intros acc w.
  - cbn. by rewrite app_nil_r, requested_nil.
  - destruct Hrow as (c & owner & id & aliases & wa & wb & location & region
                        & analytics & Hc & Howner & Hid & Hal & Hloc & Hreg & Han & ->).
    cbn [app collect flat_map].
    unfold bind at 1. unfold request at 1. rewrite Howner.
    unfold bind at 1. unfold lift at 1. unfold getitem at 1. rewrite Hid.
    unfold bind at 1.
    match goal with
    | |- context [get_acc_aliases api opt ?W] =>
        pose proof (get_acc_aliases_result api opt W wa) as Hsame;
        destruct (get_acc_aliases api opt W) as [r w3] eqn:Hrun
    end.
    rewrite Hal in Hsame. cbn in Hsame. subst r.
    apply get_acc_aliases_Ok in Hrun as ->.
    unfold bind at 1. rewrite get_s3_bucket_region_eq, Hc, Hloc.
    unfold getitem at 1. rewrite Hreg.
    unfold bind at 1. rewrite is_analytics_enabled_eq, Hc, Han.
    rewrite IH. f_equal.
    + rewrite <- app_assoc. by case_bool_decide.
    + rewrite !requested_requested. unfold bucket_requests, requested. cbn.
      f_equal. by rewrite <- !app_assoc.
Qed.

(** X17: only a [ClientError] of the listing is handled.  When the
    listing raises a [ClientError], [main] prints the credentials message
    and ends normally; when it raises any other exception, [main] ends
    with that exception and prints nothing.  In both cases no file is
    written. *)
Theorem X17_failed_listing e w :
  listing api opt = Raise e ->
  exists w2,
    files w2 = files w /\
    ((exists err,
        e = ClientError err /\
        main api opt w = (Ok tt, w2) /\
        stdout w2 = stdout w ++ [credentials_message err]) \/
     ((forall err, e <> ClientError err) /\
      main api opt w = (Raise e, w2) /\
      stdout w2 = stdout w)).
Proof.
  intros Hlist.
  assert (exists w1, formated_buckets_try api opt w = (Raise e, w1) /\
                     stdout w1 = stdout w /\ files w1 = files w) as (w1 & Htry & Hout & Hfiles).
  { unfold listing in Hlist. unfold formated_buckets_try.
    unfold bind at 1. unfold lift at 1.
    destruct (credentials opt) as [kw|e1]; [| simplify_eq; eauto].
    unfold bind at 1. unfold lift at 1.
    destruct (boto3_resource api "s3" kw) as [s3|e1]; [| simplify_eq; eauto].
    unfold bind at 1. unfold request at 1. rewrite Hlist. eauto. }
  assert ((exists err, e = ClientError err) \/ forall err, e <> ClientError err)
    as [[err ->] | He] by (destruct e; eauto).
  - assert (get_formated_buckets_list api opt w =
              (Ok None, printed (credentials_message err) w1)) as Hrun.
    { unfold get_formated_buckets_list, try_except_ClientError. by rewrite Htry. }
    pose proof (main_run _ _ _ _ _ Hrun) as Hmain. cbn beta iota in Hmain.
    exists (printed (credentials_message err) w1). split; [done |].
    left. exists err. repeat split; [done |]. cbn. by rewrite Hout.
  - assert (get_formated_buckets_list api opt w = (Raise e, w1)) as Hrun.
    { unfold get_formated_buckets_list, try_except_ClientError. rewrite Htry.
      destruct e; try done. by destruct (He msg). }
    pose proof (main_run _ _ _ _ _ Hrun) as Hmain. cbn beta iota in Hmain.
    exists w1. split; [done |]. by right.
Qed.

(** X18: when the ACL request of a bucket raises a [ClientError] after
    the buckets before it got their rows, [main] prints the credentials
    message and ends normally without writing a file: the rows gathered
    so far are dropped and the buckets after it are never asked about. *)
Theorem X18_refused_bucket_drops_rows done rows bucket rest err w :
  listing api opt = Ok (done ++ bucket :: rest) ->
  Forall2 (row_of api opt) done rows ->
  Acl_owner bucket = Raise (ClientError err) ->
  main api opt w =
    (Ok tt,
     printed (credentials_message err)
       (requested
          (ListBuckets :: flat_map (bucket_requests api opt) done ++
             [GetBucketAcl (name bucket)]) w)).
Proof.
  intros Hlist Hdone Hacl.
  rewrite (main_run api opt w (Ok None)
             (printed (credentials_message err)
                (requested
                   (ListBuckets :: flat_map (bucket_requests api opt) done ++
                      [GetBucketAcl (name bucket)]) w))); [done |].
  unfold get_formated_buckets_list, try_except_ClientError.
  rewrite (formated_buckets_try_listed _ _ _ _ Hlist).
  unfold bind at 1. rewrite (collect_prefix _ _ _ _ _ Hdone).
  cbn [collect]. unfold bind at 1. unfold request at 1. rewrite Hacl.
  unfold bind, print, ret, printed. cbn.
  do 2 f_equal. by rewrite <- !app_assoc.
Qed.

End Failures.

(** ** The further properties on the sample response sets *)

Module Checks.

Import Samples Cases.

Ltac answer :=
  unfold answered; eexists; (split; [reflexivity | vm_compute; reflexivity]).

Lemma X1_witness :
  constructed paged_api opt "iam" = Ok paged_client /\
  Forall2 answered (list_account_aliases_pages paged_client)
    [PList [PStr "acme"]; PList [PStr "acme-eu"; PStr "ops"]] /\
  get_acc_aliases paged_api opt (fresh ∅) =
    (Ok (join " " (List.map str [PList [PStr "acme"]; PList [PStr "acme-eu"; PStr "ops"]])),
     requested (replicate 2 ListAccountAliases) (fresh ∅)).
Proof.
  assert (constructed paged_api opt "iam" = Ok paged_client) as Hc by reflexivity.
  assert (Forall2 answered (list_account_aliases_pages paged_client)
            [PList [PStr "acme"]; PList [PStr "acme-eu"; PStr "ops"]]) as Hp.
  { constructor; [answer |]. constructor; [answer |]. constructor. }
  split; [exact Hc |]. split; [exact Hp |].
  exact (X1_aliases_of_all_pages paged_api opt paged_client _ (fresh ∅) Hc Hp).
Defined.

(** The alias text of two pages. *)
Example two_pages :
  fst (get_acc_aliases paged_api opt (fresh ∅)) = Ok "['acme'] ['acme-eu', 'ops']".
Proof. vm_compute. reflexivity. Qed.

Lemma X2_witness :
  constructed late_refusal_api opt "iam" = Ok late_refusal_client /\
  list_account_aliases_pages late_refusal_client =
    [Ok page] ++ Raise (ClientError "Throttling") :: [Ok second_page] /\
  Forall2 answered [Ok page] [PList [PStr "acme"]] /\
  get_acc_aliases late_refusal_api opt (fresh ∅) =
    (Ok "Not available", requested (replicate 2 ListAccountAliases) (fresh ∅)).
Proof.
  assert (constructed late_refusal_api opt "iam" = Ok late_refusal_client) as Hc
    by reflexivity.
  assert (Forall2 answered [Ok page] [PList [PStr "acme"]]) as Hp.
  { constructor; [answer | constructor]. }
  split; [exact Hc |]. split; [reflexivity |]. split; [exact Hp |].
  exact (X2_refused_page_drops_aliases late_refusal_api opt late_refusal_client
           [Ok page] _ "Throttling" [Ok second_page] (fresh ∅) Hc eq_refl Hp).
Defined.

Lemma X3_witness :
  constructed keyless_api opt "iam" = Ok keyless_client /\
  list_account_aliases_pages keyless_client = [Ok page] ++ Ok ∅ :: [Ok second_page] /\
  Forall2 answered [Ok page] [PList [PStr "acme"]] /\
  get_acc_aliases keyless_api opt (fresh ∅) =
    (Raise (KeyError "AccountAliases"),
     requested (replicate 2 ListAccountAliases) (fresh ∅)).
Proof.
  assert (constructed keyless_api opt "iam" = Ok keyless_client) as Hc by reflexivity.
  assert (Forall2 answered [Ok page] [PList [PStr "acme"]]) as Hp.
  { constructor; [answer | constructor]. }
  split; [exact Hc |]. split; [reflexivity |]. split; [exact Hp |].
  refine (X3_other_page_errors_escape keyless_api opt keyless_client
            [Ok page] _ (Ok ∅) (KeyError "AccountAliases") [Ok second_page] (fresh ∅)
            Hc eq_refl Hp _ _).
  - right. exists ∅. repeat split.
  - intros err. discriminate.
Defined.

Lemma X4_witness :
  constructed clientless_api opt "s3" = Raise (ClientError "InvalidClientTokenId") /\
  constructed clientless_api opt "iam" = Raise (ClientError "InvalidClientTokenId") /\
  get_s3_bucket_region clientless_api opt "logs" (fresh ∅) =
    (Raise (AttributeError "get_bucket_location"),
     printed (credentials_message "InvalidClientTokenId") (fresh ∅)) /\
  get_acc_aliases clientless_api opt (fresh ∅) =
    (Raise (AttributeError "get_paginator"),
     printed (credentials_message "InvalidClientTokenId") (fresh ∅)).
Proof.
  assert (constructed clientless_api opt "s3" = Raise (ClientError "InvalidClientTokenId"))
    as Hs3 by reflexivity.
  assert (constructed clientless_api opt "iam" = Raise (ClientError "InvalidClientTokenId"))
    as Hiam by reflexivity.
  split; [exact Hs3 |]. split; [exact Hiam |].
  destruct (X4_helpers_without_client clientless_api opt "InvalidClientTokenId")
    as [Hq Ha].
  split; [exact (proj1 (Hq Hs3 "logs" (fresh ∅))) | exact (Ha Hiam (fresh ∅))].
Defined.

Lemma X5_witness :
  constructed api opt "s3" = Ok s3_client /\
  get_s3_bucket_region api opt "logs" (fresh ∅) =
    (match get_bucket_location s3_client "logs" with
     | Ok location =>
         match location !! "LocationConstraint" with
         | Some region => Ok region
         | None => Raise (KeyError "LocationConstraint")
         end
     | Raise e => Raise e
     end, requested [GetBucketLocation "logs"] (fresh ∅)) /\
  is_analytics_enabled api opt "logs" (fresh ∅) =
    (match list_bucket_analytics_configurations s3_client "logs" with
     | Ok analytics =>
         match analytics !! "AnalyticsConfigurationList" with
         | Some _ => Ok (PBool true)
         | None => Ok PNone
         end
     | Raise e => Raise e
     end, requested [ListBucketAnalyticsConfigurations "logs"] (fresh ∅)).
Proof.
  assert (constructed api opt "s3" = Ok s3_client) as Hc by reflexivity.
  split; [exact Hc |].
  exact (X5_queries_with_client api opt s3_client "logs" (fresh ∅) Hc).
Defined.

Lemma X6_witness :
  listing clientless_api opt = Ok (bucket "logs" :: []) /\
  Acl_owner (bucket "logs") = Ok {[ "ID" := PStr "0123abcd" ]} /\
  ({[ "ID" := PStr "0123abcd" ]} : gmap string pyobj) !! "ID" = Some (PStr "0123abcd") /\
  constructed clientless_api opt "iam" = Raise (ClientError "InvalidClientTokenId") /\
  main clientless_api opt (fresh ∅) =
    (Raise (AttributeError "get_paginator"),
     printed (credentials_message "InvalidClientTokenId")
       (requested [ListBuckets; GetBucketAcl (name (bucket "logs"))] (fresh ∅))).
Proof.
  assert (listing clientless_api opt = Ok (bucket "logs" :: [])) as Hl by reflexivity.
  assert (({[ "ID" := PStr "0123abcd" ]} : gmap string pyobj) !! "ID"
            = Some (PStr "0123abcd")) as Hid by (vm_compute; reflexivity).
  assert (constructed clientless_api opt "iam" = Raise (ClientError "InvalidClientTokenId"))
    as Hiam by reflexivity.
  split; [exact Hl |]. split; [reflexivity |]. split; [exact Hid |]. split; [exact Hiam |].
  exact (X6_no_iam_client_ends_run clientless_api opt (bucket "logs") [] _ _ _
           (fresh ∅) Hl eq_refl Hid Hiam).
Defined.

Lemma X7_witness :
  (exists w1, get_formated_buckets_list api opt (fresh ∅) = (Ok (Some rows), w1)) /\
  (exists buckets,
     listing api opt = Ok buckets /\ Forall2 (row_of api opt) buckets rows).
Proof.
  assert (exists w1, get_formated_buckets_list api opt (fresh ∅) = (Ok (Some rows), w1))
    as H by (exists collected; vm_compute; reflexivity).
  split; [exact H |].
  exact (proj1 (X7_rows_iff_all_answered api opt (fresh ∅) rows) H).
Defined.

Lemma X8_witness :
  listing no_constraint_api opt = Ok [bucket "logs"; bucket "media"] /\
  bucket "media" ∈ [bucket "logs"; bucket "media"] /\
  unanswered no_constraint_api opt (bucket "media") /\
  main no_constraint_api opt (fresh disk) =
    (fst (main no_constraint_api opt (fresh disk)),
     snd (main no_constraint_api opt (fresh disk))) /\
  files (snd (main no_constraint_api opt (fresh disk))) = files (fresh disk).
Proof.
  assert (listing no_constraint_api opt = Ok [bucket "logs"; bucket "media"])
    as Hl by reflexivity.
  assert (bucket "media" ∈ [bucket "logs"; bucket "media"]) as Hin
    by (apply list_elem_of_further, list_elem_of_here).
  assert (unanswered no_constraint_api opt (bucket "media")) as Hun.
  { right. intros c Hc. left. intros location Hloc.
    assert (constructed no_constraint_api opt "s3" = Ok no_constraint_client) as Hc'
      by reflexivity.
    rewrite Hc' in Hc. injection Hc as <-.
    cbn in Hloc. injection Hloc as <-. apply lookup_empty. }
  assert (main no_constraint_api opt (fresh disk) =
            (fst (main no_constraint_api opt (fresh disk)),
             snd (main no_constraint_api opt (fresh disk)))) as Hm
    by apply surjective_pairing.
  split; [exact Hl |]. split; [exact Hin |]. split; [exact Hun |]. split; [exact Hm |].
  exact (X8_one_unanswered_bucket_no_file no_constraint_api opt _ _ (fresh disk) _ _
           Hl Hin Hun Hm).
Defined.

(** The run over [no_constraint_api] ends at the location of [media]. *)
Example unanswered_media :
  fst (main no_constraint_api opt (fresh disk)) = Raise (KeyError "LocationConstraint").
Proof. vm_compute. reflexivity. Qed.

Lemma X9_witness :
  get_formated_buckets_list api opt (fresh ∅) = (Ok (Some rows), collected) /\
  exists buckets,
    listing api opt = Ok buckets /\
    stdout collected = stdout (fresh ∅) /\
    files collected = files (fresh ∅) /\
    calls collected =
      calls (fresh ∅) ++ ListBuckets :: flat_map (bucket_requests api opt) buckets.
Proof.
  assert (get_formated_buckets_list api opt (fresh ∅) = (Ok (Some rows), collected))
    as H by (vm_compute; reflexivity).
  split; [exact H |].
  exact (X9_requests_in_order api opt (fresh ∅) rows collected H).
Defined.

Lemma X10_witness :
  main api opt (fresh disk) = (Ok tt, snd (main api opt (fresh disk))) /\
  "notes.txt" <> "output.csv" /\
  files (snd (main api opt (fresh disk))) !! "notes.txt" = files (fresh disk) !! "notes.txt".
Proof.
  assert (main api opt (fresh disk) = (Ok tt, snd (main api opt (fresh disk)))) as H
    by (vm_compute; reflexivity).
  assert ("notes.txt" <> "output.csv") as Hne by discriminate.
  split; [exact H |]. split; [exact Hne |].
  exact (X10_only_output_csv api opt (fresh disk) _ _ "notes.txt" H Hne).
Defined.

(** The stale report is replaced, the other file is kept. *)
Example replaced_report :
  files (snd (main api opt (fresh disk))) !! "notes.txt" = Some "keep" /\
  files (snd (main api opt (fresh disk))) !! "output.csv" =
    Some (writerow header +:+ records rows).
Proof. split; vm_compute; reflexivity. Qed.

Lemma X13_witness :
  region_argument ∈ parser_arguments /\
  required region_argument = true /\
  (forall t option_string explicit_arg,
     t ∈ ["-a"; "AKIAEXAMPLE"; "-s"; "secret"] ->
     parse_optional t <> Optional (Some (Store region_argument)) option_string explicit_arg) /\
  exists code,
    script api ["-a"; "AKIAEXAMPLE"; "-s"; "secret"] (fresh ∅) =
      (Raise (SystemExit code), fresh ∅).
Proof.
  assert (region_argument ∈ parser_arguments) as Ha by apply list_elem_of_here.
  assert (forall t option_string explicit_arg,
            t ∈ ["-a"; "AKIAEXAMPLE"; "-s"; "secret"] ->
            parse_optional t <>
              Optional (Some (Store region_argument)) option_string explicit_arg)
    as Habsent.
  { intros t os ex Hin.
    repeat (apply elem_of_cons in Hin as [-> | Hin]; [vm_compute; discriminate |]).
    by apply elem_of_nil in Hin. }
  split; [exact Ha |]. split; [reflexivity |]. split; [exact Habsent |].
  exact (X13_missing_required_option api region_argument _ (fresh ∅) Ha eq_refl Habsent).
Defined.

(** The region in the other spellings is read as the region option, and
    the script goes on to [main]. *)
Example region_attached :
  parse_args ["--aws_region=eu-central-1"; "-a"; "AKIAEXAMPLE"; "-s"; "secret"] = Ok opt /\
  parse_args ["-reu-central-1"; "-a"; "AKIAEXAMPLE"; "-s"; "secret"] = Ok opt /\
  parse_args ["--aws_r"; "eu-central-1"; "-a"; "AKIAEXAMPLE"; "-s"; "secret"] = Ok opt /\
  script api ["-reu-central-1"; "-a"; "AKIAEXAMPLE"; "-s"; "secret"] (fresh ∅) =
    main api opt (fresh ∅).
Proof. repeat split; vm_compute; reflexivity. Qed.

(** Values that begin with a dash: a negative number and a text with a
    space are taken; the separator attached to an option stores the empty
    list; an abbreviation of two options is refused. *)
Example dashed_values :
  parse_args ["-r"; "-1"; "-a"; "-x y"; "-s"; "-"] =
    Ok (<["aws_region" := PStr "-1"]>
        (<["aws_access_key" := PStr "-x y"]>
         (<["aws_secret_key" := PStr "-"]> defaults))) /\
  parse_args ["-r--"; "-a"; "k"; "--aws_secret_key=--"] =
    Ok (<["aws_region" := PList []]>
        (<["aws_access_key" := PStr "k"]>
         (<["aws_secret_key" := PList []]> defaults))) /\
  parse_args ["-r"; "x"; "-a"; "k"; "--aws_se"; "z"] = Raise (SystemExit 2) /\
  parse_args ["-r"; "x"; "-a"; "k"; "-s"; "z"; "--"] = Raise (SystemExit 2) /\
  parse_args ["-r"; "x"; "-a"; "k"; "-s"; "z"; "extra"] = Raise (SystemExit 2) /\
  parse_args ["-r"; "x"; "-a"; "k"; "-s"; "-t"] = Raise (SystemExit 2) /\
  parse_args ["-h"] = Raise (SystemExit 0) /\
  parse_args ["-r"; "x"; "--help"] = Raise (SystemExit 0).
Proof. repeat split; vm_compute; reflexivity. Qed.


Lemma X15_witness :
  csv_field (PStr "a,b|c") = csv_field (PStr "a,b|c") /\ "a,b|c" = "a,b|c".
Proof.
  split; [reflexivity |].
  exact (X15_field_text_determines_string "a,b|c" "a,b|c" eq_refl).
Defined.

(** A field with the delimiter and the quote character. *)
Example quoted_field : csv_field (PStr "a,b|c") = "|a,b||c|".
Proof. reflexivity. Qed.

Lemma X16_witness :
  constructed api opt "iam" = Ok s3_client /\
  list_account_aliases_pages s3_client = [Ok page] /\
  page !! "AccountAliases" = Some (PList (List.map PStr ["acme"])) /\
  get_acc_aliases api opt (fresh ∅) =
    (Ok ("[" +:+ join ", " (List.map repr_str ["acme"]) +:+ "]"),
     requested [ListAccountAliases] (fresh ∅)).
Proof.
  assert (constructed api opt "iam" = Ok s3_client) as Hc by reflexivity.
  assert (page !! "AccountAliases" = Some (PList (List.map PStr ["acme"]))) as Hd
    by (vm_compute; reflexivity).
  split; [exact Hc |]. split; [reflexivity |]. split; [exact Hd |].
  exact (X16_alias_field_is_list_syntax api opt s3_client page ["acme"] (fresh ∅)
           Hc eq_refl Hd).
Defined.

Lemma X17_witness :
  listing refused_api opt = Raise (ClientError "InvalidAccessKeyId") /\
  exists w2,
    files w2 = files (fresh disk) /\
    ((exists err,
        ClientError "InvalidAccessKeyId" = ClientError err /\
        main refused_api opt (fresh disk) = (Ok tt, w2) /\
        stdout w2 = stdout (fresh disk) ++ [credentials_message err]) \/
     ((forall err, ClientError "InvalidAccessKeyId" <> ClientError err) /\
      main refused_api opt (fresh disk) = (Raise (ClientError "InvalidAccessKeyId"), w2) /\
      stdout w2 = stdout (fresh disk))).
Proof.
  assert (listing refused_api opt = Raise (ClientError "InvalidAccessKeyId")) as H
    by reflexivity.
  split; [exact H |].
  exact (X17_failed_listing refused_api opt _ (fresh disk) H).
Defined.

Lemma X18_witness :
  listing acl_refused_api opt = Ok ([bucket "logs"] ++ locked :: [bucket "backup"]) /\
  Forall2 (row_of acl_refused_api opt) [bucket "logs"]
    [[PStr "0123abcd"; PStr "['acme']"; PStr "logs"; PNone; PStr "Y"]] /\
  Acl_owner locked = Raise (ClientError "AccessDenied") /\
  main acl_refused_api opt (fresh ∅) =
    (Ok tt,
     printed (credentials_message "AccessDenied")
       (requested
          (ListBuckets :: flat_map (bucket_requests acl_refused_api opt) [bucket "logs"] ++
             [GetBucketAcl (name locked)]) (fresh ∅))).
Proof.
  assert (listing acl_refused_api opt = Ok ([bucket "logs"] ++ locked :: [bucket "backup"]))
    as Hl by reflexivity.
  assert (Forall2 (row_of acl_refused_api opt) [bucket "logs"]
            [[PStr "0123abcd"; PStr "['acme']"; PStr "logs"; PNone; PStr "Y"]]) as Hrows.
  { constructor; [| constructor].
    exists s3_client, {[ "ID" := PStr "0123abcd" ]}, (PStr "0123abcd"), "['acme']",
      (fresh ∅), (requested [ListAccountAliases] (fresh ∅)),
      {[ "LocationConstraint" := PNone ]}, PNone,
      {[ "AnalyticsConfigurationList" := PList [PStr "daily"] ]}.
    repeat split; vm_compute; reflexivity. }
  split; [exact Hl |]. split; [exact Hrows |]. split; [reflexivity |].
  exact (X18_refused_bucket_drops_rows acl_refused_api opt _ _ locked _ "AccessDenied"
           (fresh ∅) Hl Hrows eq_refl).
Defined.

(** The requests of that run: the third bucket is never asked about. *)
Example refused_second_bucket :
  calls (snd (main acl_refused_api opt (fresh ∅))) =
    [ListBuckets;
     GetBucketAcl "logs"; ListAccountAliases; GetBucketLocation "logs";
     ListBucketAnalyticsConfigurations "logs";
     GetBucketAcl "media"].
Proof. vm_compute. reflexivity. Qed.

End Checks.
